(** * trip-planner-demo: the request handler of [server.js]

    A shallow embedding of the parts of [server.js] that carry logic: the
    debug-console fan-out ([logToDebug], the WebSocket connection handler),
    the activity filter with [calculateDistance], the streaming loop of
    [POST /api/generate-itinerary] and the extraction of the JSON result
    that follows it.

    JavaScript strings are sequences of UTF-16 code units; they are modelled
    as lists of code units, so that [length], [includes], [split], [replace]
    and [trim] count and compare what the engine counts and compares.
    Numbers are IEEE-754 doubles and are modelled by the kernel's primitive
    floats. *)

From Stdlib Require Import NArith ZArith Ascii String List Bool Lia Floats.
From Stdlib Require Import DecimalString.
From stdpp Require Import base list gmap.

Local Open Scope nat_scope.
Local Open Scope list_scope.

(** ** JavaScript strings *)

Module JS.

(** A UTF-16 code unit; only equality and membership in the white-space
    class are ever observed, so the bound [< 65536] plays no role. *)
Definition code_unit := N.
Definition jsstring := list code_unit.

(** An ASCII literal of the source, as a list of code units. *)
Definition lit (s : string) : jsstring :=
  List.map N_of_ascii (list_ascii_of_string s).

(** [WhiteSpace] and [LineTerminator] of ECMAScript: the code units that
    [String.prototype.trim] strips and that [\s] matches. *)
Definition is_space (c : code_unit) : bool :=
  ((9 <=? c) && (c <=? 13) || (c =? 32) || (c =? 160) || (c =? 5760)
   || (8192 <=? c) && (c <=? 8202) || (c =? 8232) || (c =? 8233)
   || (c =? 8239) || (c =? 8287) || (c =? 12288) || (c =? 65279))%N.

Fixpoint trimStart (s : jsstring) : jsstring :=
  match s with
  | c :: s' => if is_space c then trimStart s' else s
  | [] => []
  end.

Definition trimEnd (s : jsstring) : jsstring := rev (trimStart (rev s)).

(** [s.trim()] *)
Definition trim (s : jsstring) : jsstring := trimEnd (trimStart s).

(** A string in a condition: the empty string is the only falsy one. *)
Definition truthy (s : jsstring) : bool :=
  match s with [] => false | _ :: _ => true end.

(** [s.startsWith(p)] *)
Fixpoint startsWith (p s : jsstring) : bool :=
  match p, s with
  | [], _ => true
  | _ :: _, [] => false
  | a :: p', b :: s' => (a =? b)%N && startsWith p' s'
  end.

(** [s.indexOf(p)]: the least position at which [p] occurs, [None] for -1. *)
Fixpoint indexOf (p s : jsstring) : option nat :=
  if startsWith p s then Some 0
  else match s with
       | [] => None
       | _ :: s' => option_map S (indexOf p s')
       end.

(** [s.includes(p)] *)
Definition includes (p s : jsstring) : bool :=
  match indexOf p s with Some _ => true | None => false end.

(** [s.split(sep)] for a non-empty string separator: cut at the first
    occurrence, then go on behind it.  The fuel is the length of the string;
    [split_unfold] below shows that it never runs out. *)
Fixpoint split_fuel (fuel : nat) (sep s : jsstring) : list jsstring :=
  match indexOf sep s with
  | None => [s]
  | Some j =>
      match fuel with
      | 0 => [s]
      | S fuel' =>
          take j s :: split_fuel fuel' sep (drop (j + length sep) s)
      end
  end.

Definition split (sep s : jsstring) : list jsstring :=
  split_fuel (length s) sep s.

(** [s.replace(p, r)] for a string pattern [p] and a replacement without
    [$] patterns: only the first occurrence is replaced. *)
Definition replace (p r s : jsstring) : jsstring :=
  match indexOf p s with
  | None => s
  | Some j => take j s ++ r ++ drop (j + length p) s
  end.

(** [s.substring(0, n)] *)
Definition substring0 (n : nat) (s : jsstring) : jsstring := take n s.

(** The class [[.!?]] of the sentence regex. *)
Definition is_sentence_end (c : code_unit) : bool :=
  ((c =? 46) || (c =? 33) || (c =? 63))%N.

(** [s.split(/(?<=[.!?])\s+/)].

    The regex matches a maximal run of white space that directly follows
    one of [. ! ?].  [split_sentences_from prev in_gap piece s] scans [s]
    from left to right: [prev] is the code unit before the scanning
    position, [in_gap] says that the position is inside a run that already
    matched (the run is greedy, so it extends as long as white space
    follows), and [piece] holds, reversed, the code units of the piece under
    construction.  A match is never empty, so the piece before it is always
    pushed, and the last piece is pushed at the end of the string. *)
Fixpoint split_sentences_from (prev : option code_unit) (in_gap : bool)
    (piece s : jsstring) : list jsstring :=
  match s with
  | [] => [rev piece]
  | c :: s' =>
      if is_space c then
        if in_gap then split_sentences_from (Some c) true piece s'
        else
          match prev with
          | Some t =>
              if is_sentence_end t
              then rev piece :: split_sentences_from (Some c) true [] s'
              else split_sentences_from (Some c) false (c :: piece) s'
          | None => split_sentences_from (Some c) false (c :: piece) s'
          end
      else split_sentences_from (Some c) false (c :: piece) s'
  end.

Definition split_sentences (s : jsstring) : list jsstring :=
  split_sentences_from None false [] s.

End JS.

Import JS.

(** ** Event fan-out: [debugClients], [logToDebug], the connection handler *)

Module FanOut.

(** The [level] argument of [logToDebug]; the source passes only these
    three literals (['info'] is the default). *)
Inductive Level := info | success | error.

(** The object [{ timestamp, level, message }].  What travels to a debug
    console is [JSON.stringify] of it; the record stands for that text. *)
Record LogRecord := {
  timestamp : jsstring;
  level : Level;
  message : jsstring
}.

(** [readyState] of a socket of the [ws] package. *)
Definition CONNECTING : nat := 0.
Definition OPEN : nat := 1.
Definition CLOSING : nat := 2.
Definition CLOSED : nat := 3.

(** A socket object: its state, and what [send] has been called with. *)
Record Socket := {
  readyState : nat;
  sent : list LogRecord
}.

(** The process-wide state: the set [debugClients] of socket identities,
    the socket objects they refer to, and the lines of [console.log]. *)
Record Server := {
  debugClients : gset nat;
  sockets : gmap nat Socket;
  console : list jsstring
}.

Definition send (log : LogRecord) (ws : Socket) : Socket :=
  {| readyState := readyState ws; sent := sent ws ++ [log] |}.

(** The body of the [forEach] callback of [logToDebug]. *)
Definition deliver (log : LogRecord) (heap : gmap nat Socket) (client : nat)
    : gmap nat Socket :=
  match heap !! client with
  | Some ws =>
      if readyState ws =? OPEN then <[client := send log ws]> heap else heap
  | None => heap
  end.

(** [logToDebug(message, level)]; [ts] is the rendering of the clock that
    [new Date().toLocaleTimeString(...)] returns at the call. *)
Definition logToDebug (ts message : jsstring) (lvl : Level) (srv : Server)
    : Server :=
  let log := {| timestamp := ts; level := lvl; message := message |} in
  {| debugClients := debugClients srv;
     sockets := foldl (deliver log) (sockets srv) (elements (debugClients srv));
     console := console srv ++ [lit "[" ++ ts ++ lit "] " ++ message] |}.

(** [debugClients.add(ws)] and [debugClients.delete(ws)] *)
Definition add (ws : nat) (srv : Server) : Server :=
  {| debugClients := {[ws]} ∪ debugClients srv;
     sockets := sockets srv;
     console := console srv |}.

Definition delete (ws : nat) (srv : Server) : Server :=
  {| debugClients := debugClients srv ∖ {[ws]};
     sockets := sockets srv;
     console := console srv |}.

(** [wss.on('connection', ...)] and the [ws.on('close', ...)] it installs. *)
Definition on_connection (ts : jsstring) (ws : nat) (srv : Server) : Server :=
  logToDebug ts (lit "Debug console connected") success (add ws srv).

Definition on_close (ts : jsstring) (ws : nat) (srv : Server) : Server :=
  logToDebug ts (lit "Debug console disconnected") info (delete ws srv).

(** What happens to the server over time: connections and closes run the
    handlers, any code may call [logToDebug], and the [ws] package moves a
    socket from one [readyState] to another. *)
Inductive Event :=
| Connection (ts : jsstring) (ws : nat)
| Close (ts : jsstring) (ws : nat)
| Log (ts message : jsstring) (lvl : Level)
| SetReadyState (ws : nat) (state : nat).

Definition set_readyState (ws state : nat) (srv : Server) : Server :=
  {| debugClients := debugClients srv;
     sockets :=
       match sockets srv !! ws with
       | Some s => <[ws := {| readyState := state; sent := sent s |}]> (sockets srv)
       | None => sockets srv
       end;
     console := console srv |}.

Definition handle (ev : Event) (srv : Server) : Server :=
  match ev with
  | Connection ts ws => on_connection ts ws srv
  | Close ts ws => on_close ts ws srv
  | Log ts m lvl => logToDebug ts m lvl srv
  | SetReadyState ws st => set_readyState ws st srv
  end.

Definition run (evs : list Event) (srv : Server) : Server :=
  foldl (fun s ev => handle ev s) srv evs.

(** What a broadcast does to one subscribed socket: [send] when it is
    open, nothing otherwise. *)
Definition received (log : LogRecord) (ws : Socket) : Socket :=
  if readyState ws =? OPEN then send log ws else ws.

(** Whether an identity names a socket that is open. *)
Definition ready (srv : Server) (ws : nat) : bool :=
  match sockets srv !! ws with
  | Some s => readyState s =? OPEN
  | None => false
  end.

(** What a socket has been sent so far ([[]] for an identity that names no
    socket). *)
Definition inbox (srv : Server) (ws : nat) : list LogRecord :=
  match sockets srv !! ws with Some s => sent s | None => [] end.

(** Two debug consoles, the first open and the second closing, both
    subscribed. *)
Definition two_consoles : Server :=
  {| debugClients := {[1; 2]};
     sockets := <[1 := {| readyState := OPEN; sent := [] |}]>
                (<[2 := {| readyState := CLOSING; sent := [] |}]> ∅);
     console := [] |}.

End FanOut.

(** ** The activity filter and [calculateDistance] *)

Module Geo.

Local Open Scope float_scope.

Record Hotel := {
  hotel_name : jsstring;
  hotel_lat : float;
  hotel_lng : float
}.

(** [price] is optional in the request. *)
Record Activity := {
  name : jsstring;
  type : jsstring;
  price : option float;
  rating : float;
  lat : float;
  lng : float
}.

Record Preferences := {
  budget : float;
  maxDistance : float;
  duration : jsstring
}.

(** [Math.PI] *)
Definition Math_PI : float := 0x1.921fb54442d18p+1.

Definition toRad (degrees : float) : float := degrees * (Math_PI / 180).

(** A number is falsy when it is [0], [-0] or [NaN]. *)
Definition falsy (x : float) : bool := (x =? 0) || is_nan x.

(** [activity.price || 0] *)
Definition price_or_0 (p : option float) : float :=
  match p with
  | Some x => if falsy x then 0 else x
  | None => 0
  end.

Section Math.

(** [Math.sin], [Math.cos], [Math.sqrt] and [Math.atan2] are approximations
    that the engine chooses; the code is read for any choice of them. *)
Variables Math_sin Math_cos Math_sqrt : float -> float.
Variable Math_atan2 : float -> float -> float.

Definition calculateDistance (lat1 lon1 lat2 lon2 : float) : float :=
  let R := 3959 in
  let dLat := toRad (lat2 - lat1) in
  let dLon := toRad (lon2 - lon1) in
  let a :=
    Math_sin (dLat / 2) * Math_sin (dLat / 2) +
    Math_cos (toRad lat1) * Math_cos (toRad lat2) *
    Math_sin (dLon / 2) * Math_sin (dLon / 2) in
  let c := 2 * Math_atan2 (Math_sqrt a) (Math_sqrt (1 - a)) in
  R * c.

(** The callback of [activities.filter]. *)
Definition admits (hotel : Hotel) (preferences : Preferences)
    (activity : Activity) : bool :=
  let distance :=
    calculateDistance (hotel_lat hotel) (hotel_lng hotel)
                      (lat activity) (lng activity) in
  (distance <=? maxDistance preferences) &&
  (price_or_0 (price activity) <=? budget preferences).

Definition filtered (hotel : Hotel) (preferences : Preferences)
    (activities : list Activity) : list Activity :=
  List.filter (admits hotel preferences) activities.

End Math.

(** A request to evaluate the filter on: a hotel at (40.0, -74.0), a
    candidate at (40.001, -74.001) priced 10, a budget of 50 and a maximal
    distance of 5 miles. *)
Definition example_hotel : Hotel :=
  {| hotel_name := lit "H"; hotel_lat := 40; hotel_lng := -74 |}.

Definition example_activity : Activity :=
  {| name := lit "X"; type := lit "park"; price := Some 10;
     rating := 4.5;
     lat := 0x1.40020c49ba5e3p+5;     (* the double nearest to 40.001 *)
     lng := -0x1.28010624dd2f2p+6 |}. (* the double nearest to -74.001 *)

Definition example_preferences : Preferences :=
  {| budget := 50; maxDistance := 5; duration := lit "Half Day" |}.

(** Stand-ins for the Math functions, good enough near zero, so that the
    filter can be evaluated: first terms of the series of [sin], [cos] and
    [atan]. *)
Definition near_sin (x : float) : float := x - x * x * x / 6.
Definition near_cos (x : float) : float := 1 - x * x / 2 + x * x * x * x / 24.
Definition near_atan2 (y x : float) : float :=
  y / x - (y / x) * (y / x) * (y / x) / 3.

(** The first term of the series of [sin] alone: a stand-in that is odd
    at every double, zero included. *)
Definition linear_sin (x : float) : float := x.

End Geo.

(** ** The streaming loop and the result extraction of
       [POST /api/generate-itinerary] *)

Module Stream.

Import FanOut.

Definition REASONING : jsstring := lit "REASONING:".
Definition RESULT : jsstring := lit "RESULT:".

(** The events written to the response: the argument of [JSON.stringify]
    in [res.write(`data: ${JSON.stringify(...)}\n\n`)]. *)
Inductive SseEvent :=
| Chunk (content : jsstring)
| Done (response : jsstring).

(** What the handler does to the outside, in the order it does it. *)
Inductive Effect :=
| LogToDebug (message : jsstring) (lvl : Level)
| ResWrite (ev : SseEvent)
| ResEnd.

(** The variables of the loop ([currentSection] is never read or written
    after its declaration). *)
Record StreamState := {
  fullResponse : jsstring;
  reasoningBuffer : jsstring;
  inReasoning : bool
}.

Definition initial : StreamState :=
  {| fullResponse := []; reasoningBuffer := []; inReasoning := false |}.

(** A statement of the loop body: it updates the variables and leaves a
    trace of effects. *)
Definition Stmt := StreamState -> StreamState * list Effect.

Definition seq (f g : Stmt) : Stmt :=
  fun st =>
    let (st1, e1) := f st in
    let (st2, e2) := g st1 in
    (st2, e1 ++ e2).

Infix ">>" := seq (at level 61, left associativity).

Definition skip : Stmt := fun st => (st, []).

(** [fullResponse += content; reasoningBuffer += content;] *)
Definition append (content : jsstring) : Stmt :=
  fun st =>
    ({| fullResponse := fullResponse st ++ content;
        reasoningBuffer := reasoningBuffer st ++ content;
        inReasoning := inReasoning st |}, []).

(** Detect REASONING section *)
Definition detect_reasoning : Stmt :=
  fun st =>
    if includes REASONING (reasoningBuffer st) && negb (inReasoning st) then
      ({| fullResponse := fullResponse st;
          reasoningBuffer := [];
          inReasoning := true |},
       [LogToDebug (lit "AI started reasoning process...") info])
    else (st, []).

(** Detect RESULT section (reasoning done) *)
Definition detect_result : Stmt :=
  fun st =>
    if includes RESULT (reasoningBuffer st) && inReasoning st then
      ({| fullResponse := fullResponse st;
          reasoningBuffer := [];
          inReasoning := false |},
       [LogToDebug (lit "AI completed reasoning, generating itinerary...")
                   success])
    else (st, []).

(** The body of the [for] loop over the completed sentences. *)
Definition log_sentence (piece : jsstring) : list Effect :=
  let sentence := trim piece in
  if truthy sentence && (10 <? length sentence)
  then [LogToDebug (lit "AI: " ++ sentence) info]
  else [].

(** Log reasoning content in real-time *)
Definition log_reasoning (content : jsstring) : Stmt :=
  fun st =>
    if inReasoning st && truthy (trim content) then
      if includes (lit ".") content || includes [10%N] content then
        let sentences := split_sentences (reasoningBuffer st) in
        ({| fullResponse := fullResponse st;
            reasoningBuffer := List.last sentences [];
            inReasoning := inReasoning st |},
         flat_map log_sentence (removelast sentences))
      else (st, [])
    else (st, []).

(** Send chunk to frontend *)
Definition relay (content : jsstring) : Stmt :=
  fun st => (st, [ResWrite (Chunk content)]).

(** One turn of [for await (const chunk of stream)].  A chunk is given by
    [chunk.choices[0]?.delta?.content], absent ([None]) or a string;
    [|| ''] turns an absent one into the empty string. *)
Definition content_of (chunk : option jsstring) : jsstring :=
  match chunk with Some c => c | None => [] end.

Definition process_chunk (chunk : option jsstring) : Stmt :=
  let content := content_of chunk in
  if truthy content then
    append content >> detect_reasoning >> detect_result >>
    log_reasoning content >> relay content
  else skip.

Fixpoint run_stream (chunks : list (option jsstring)) : Stmt :=
  match chunks with
  | [] => skip
  | chunk :: rest => process_chunk chunk >> run_stream rest
  end.

(** The trace restricted to the calls of [logToDebug]. *)
Definition notifications (es : list Effect) : list (jsstring * Level) :=
  flat_map (fun e => match e with
                     | LogToDebug m l => [(m, l)]
                     | _ => []
                     end) es.

(** The trace restricted to the chunk events written to the response. *)
Definition relayed (es : list Effect) : list jsstring :=
  flat_map (fun e => match e with
                     | ResWrite (Chunk c) => [c]
                     | _ => []
                     end) es.

(** The text of a stream: the concatenation of its fragments. *)
Definition text_of (chunks : list (option jsstring)) : jsstring :=
  concat (List.map content_of chunks).

(** The notifications of each turn of the loop, turn by turn. *)
Fixpoint notifications_per_chunk (chunks : list (option jsstring))
    (st : StreamState) : list (list (jsstring * Level)) :=
  match chunks with
  | [] => []
  | chunk :: rest =>
      let (st', es) := process_chunk chunk st in
      notifications es :: notifications_per_chunk rest st'
  end.

(** The state after the fragment ["REASONING:"] alone. *)
Definition reasoning_started : StreamState :=
  {| fullResponse := lit "REASONING:";
     reasoningBuffer := [];
     inReasoning := true |}.

(** The two notifications of the marker detection. *)
Definition started : jsstring * Level :=
  (lit "AI started reasoning process...", info).
Definition completed : jsstring * Level :=
  (lit "AI completed reasoning, generating itinerary...", success).

(** The split the handler computes after the loop: [jsonResult], and
    [reasoning], which exists only inside the [if] and is taken as empty
    outside of it. *)
Record Extracted := {
  resultText : jsstring;
  reasoningText : jsstring
}.

Definition extract (fullResponse : jsstring) : Extracted :=
  if includes RESULT fullResponse then
    let parts := split RESULT fullResponse in
    {| resultText := trim (nth 1 parts []);
       reasoningText := trim (replace REASONING [] (nth 0 parts [])) |}
  else {| resultText := fullResponse; reasoningText := [] |}.

(** The handler from the end of the loop to [res.end()] and the last log;
    [duration] is the decimal rendering of the elapsed milliseconds. *)
Definition finish (duration : jsstring) (st : StreamState) : list Effect :=
  let r := extract (fullResponse st) in
  [LogToDebug (lit "OpenAI response complete (" ++ duration ++ lit "ms)")
              success] ++
  (if truthy (reasoningText r)
   then [LogToDebug (lit "AI reasoning summary: " ++
                     substring0 200 (reasoningText r) ++ lit "...") success]
   else []) ++
  [ResWrite (Done (resultText r)); ResEnd;
   LogToDebug (lit "Itinerary generated successfully") success].

(** The split as the specification words it, for comparison with
    [extract]: cut at the first occurrence of [RESULT:], keep everything
    behind it, and strip [REASONING:] only where it leads the text before
    it. *)
Definition strip_leading (p s : jsstring) : jsstring :=
  if startsWith p s then drop (length p) s else s.

Definition extract_as_specified (text : jsstring) : Extracted :=
  match indexOf RESULT text with
  | Some i =>
      {| resultText := trim (drop (i + length RESULT) text);
         reasoningText := trim (strip_leading REASONING (take i text)) |}
  | None => {| resultText := text; reasoningText := [] |}
  end.

End Stream.

(** ** [buildPrompt] *)

Module Prompt.

Import Geo.

Definition nl : jsstring := [10%N].

(** A literal of the source that contains double quotes, written with a
    single quote where the source has a double one (the templates of
    [buildPrompt] contain no single quote). *)
Definition litq (s : string) : jsstring :=
  List.map (fun c => if (c =? 39)%N then 34%N else c) (lit s).

(** [l.join(sep)] *)
Fixpoint join (sep : jsstring) (l : list jsstring) : jsstring :=
  match l with
  | [] => []
  | x :: rest =>
      match rest with
      | [] => x
      | _ :: _ => x ++ sep ++ join sep rest
      end
  end.

Section Rendering.

(** [Number::toString], which a template applies to a number. *)
Variable Number_toString : float -> jsstring.

(** The callback of [activities.map]: one line of the activity list. *)
Definition activity_row (a : Activity) : jsstring :=
  name a ++ lit " | " ++ type a ++ lit " | $" ++
  Number_toString (price_or_0 (price a)) ++ lit " | " ++
  Number_toString (rating a) ++ [9733%N].

Definition activityList (activities : list Activity) : jsstring :=
  join nl (List.map activity_row activities).

(** [durationMinutes] of the full itinerary mode, as the template renders
    it. *)
Definition durationMinutes (preferences : Preferences) : jsstring :=
  if bool_decide (duration preferences = lit "Full Day") then lit "480"
  else if bool_decide (duration preferences = lit "Half Day") then lit "240"
  else lit "180".

Definition quick_prompt (hotel : Hotel) (activities : list Activity)
    (preferences : Preferences) : jsstring :=
  lit "Activities near " ++ hotel_name hotel ++ lit ":" ++ nl ++
  activityList activities ++ nl ++
  nl ++
  lit "Budget: $" ++ Number_toString (budget preferences) ++
  lit " | Max distance: " ++ Number_toString (maxDistance preferences) ++
  lit "mi | Time: " ++ duration preferences ++ nl ++
  nl ++
  lit "Think step-by-step, then recommend 5 best activities." ++ nl ++
  nl ++
  lit "Format:" ++ nl ++
  lit "REASONING: [brief thoughts on selection criteria, variety, and budget fit]" ++ nl ++
  litq "RESULT: [{'name':'...','type':'...','time_needed_minutes':90,'why_chosen':'...'}]" ++ nl ++
  nl ++
  lit "Output ONLY JSON after RESULT: - no extra text.".

Definition full_prompt (hotel : Hotel) (activities : list Activity)
    (preferences : Preferences) : jsstring :=
  lit "Itinerary from " ++ hotel_name hotel ++ lit ":" ++ nl ++
  nl ++
  lit "Activities:" ++ nl ++
  activityList activities ++ nl ++
  nl ++
  lit "Budget: $" ++ Number_toString (budget preferences) ++
  lit " | Distance: " ++ Number_toString (maxDistance preferences) ++
  lit "mi | Duration: " ++ durationMinutes preferences ++
  lit "min | Start: 9AM" ++ nl ++
  nl ++
  lit "Plan an efficient route with no backtracking. Consider grouping, timing, budget, and travel." ++ nl ++
  nl ++
  lit "Format:" ++ nl ++
  lit "REASONING: [routing logic, time allocation, budget strategy, trade-offs]" ++ nl ++
  litq "RESULT: [{'time':'9:00 AM','activity':'...','type':'...','duration_minutes':90,'travel_time_minutes':10,'cost':25,'notes':'...'}]" ++ nl ++
  nl ++
  lit "Output ONLY JSON after RESULT: - no extra text or markdown.".

(** [buildPrompt(mode, hotel, activities, preferences)] *)
Definition buildPrompt (mode : jsstring) (hotel : Hotel)
    (activities : list Activity) (preferences : Preferences) : jsstring :=
  if bool_decide (mode = lit "quick")
  then quick_prompt hotel activities preferences
  else full_prompt hotel activities preferences.

End Rendering.

End Prompt.

(** ** The handler of [POST /api/generate-itinerary], from the request to
       the end of the response *)

Module Handler.

Import FanOut Geo Stream Prompt.

(** The body of the request. *)
Record Request := {
  mode : jsstring;
  hotel : Hotel;
  activities : list Activity;
  preferences : Preferences
}.

(** What the generator does once it is called: it delivers chunks and then
    either completes or throws ([failure] is [error.message]).  A call that
    is rejected before any chunk is a failure with no chunks. *)
Record Upstream := {
  chunks : list (option jsstring);
  failure : option jsstring
}.

(** The calls of the handler to the outside, in order: those of the loop
    and of its end ([Effect]), the headers, the call of the generator with
    the system and the user message, and
    [res.status(500).json({ error })]. *)
Inductive Action :=
| Act (e : Effect)
| SetHeader (name value : jsstring)
| CreateCompletion (system user : jsstring)
| Status500Json (error : jsstring).

(** The rendering of an array length in a template. *)
Definition decimal (n : nat) : jsstring :=
  lit (NilZero.string_of_uint (Nat.to_uint n)).

Definition system_message : jsstring :=
  lit "Expert trip planner. Format: REASONING: [thoughts] RESULT: [JSON only]".

Section Engine.

Variables Math_sin Math_cos Math_sqrt : float -> float.
Variable Math_atan2 : float -> float -> float.
Variable Number_toString : float -> jsstring.

Definition filtered_of (req : Request) : list Activity :=
  filtered Math_sin Math_cos Math_sqrt Math_atan2
           (hotel req) (preferences req) (activities req).

(** The handler up to the call of the generator. *)
Definition before_stream (req : Request) : list Action :=
  [Act (LogToDebug (lit "Received " ++ mode req ++
                    lit " itinerary request for " ++ hotel_name (hotel req))
                   info);
   Act (LogToDebug (lit "Preferences: Budget=$" ++
                    Number_toString (budget (preferences req)) ++
                    lit ", Distance=" ++
                    Number_toString (maxDistance (preferences req)) ++
                    lit "mi, Duration=" ++ duration (preferences req))
                   info);
   Act (LogToDebug (lit "Filtering " ++ decimal (length (activities req)) ++
                    lit " activities...") info);
   Act (LogToDebug (lit "Found " ++ decimal (length (filtered_of req)) ++
                    lit " activities within criteria") success);
   Act (LogToDebug (lit "Calling OpenAI GPT-4 Turbo...") info);
   SetHeader (lit "Content-Type") (lit "text/event-stream");
   SetHeader (lit "Cache-Control") (lit "no-cache");
   SetHeader (lit "Connection") (lit "keep-alive");
   CreateCompletion system_message
     (buildPrompt Number_toString (mode req) (hotel req) (filtered_of req)
                  (preferences req))].

(** The [catch] block. *)
Definition on_error (message : jsstring) : list Action :=
  [Act (LogToDebug (lit "Error: " ++ message) error); Status500Json message].

(** The handler on a request that is well formed, so that nothing but
    the generator throws and the run reaches the call of the generator (a
    body without [hotel] or [preferences] throws before the [try], one
    without [activities] inside it, and neither run calls the generator);
    [elapsed] is the rendering of [Date.now() - startTime]. *)
Definition generate_itinerary (req : Request) (up : Upstream)
    (elapsed : jsstring) : list Action :=
  before_stream req ++
  let (st, es) := run_stream (chunks up) initial in
  List.map Act es ++
  match failure up with
  | None => List.map Act (finish elapsed st)
  | Some message => on_error message
  end.

End Engine.

(** The events written to the response, in order. *)
Definition written (acts : list Action) : list SseEvent :=
  flat_map (fun a => match a with
                     | Act (ResWrite ev) => [ev]
                     | _ => []
                     end) acts.

(** The calls of [logToDebug], in order. *)
Definition logged (acts : list Action) : list (jsstring * Level) :=
  flat_map (fun a => match a with
                     | Act (LogToDebug m l) => [(m, l)]
                     | _ => []
                     end) acts.

End Handler.

(** ** Vocabulary for the properties below *)

Module Trace.

Import FanOut Stream.

#[global] Instance Level_eq_dec : EqDecision Level.
Proof. solve_decision. Defined.

(** How often a notification occurs in a trace. *)
Definition count (n : jsstring * Level) (ns : list (jsstring * Level)) : nat :=
  length (List.filter (fun x => bool_decide (x = n)) ns).

(** A string that neither starts nor ends with white space. *)
Definition trimmed (s : jsstring) : bool :=
  match s with
  | [] => true
  | c :: _ => negb (is_space c) && negb (is_space (List.last s c))
  end.

(** A text that is empty or ends with white space: what precedes the last
    piece of a sentence split. *)
Definition gap_end (pre : jsstring) : Prop :=
  pre = [] \/ exists pre' w, pre = pre' ++ [w] /\ is_space w = true.

(** A marker without white space. *)
Definition solid (p : jsstring) : bool := forallb (fun c => negb (is_space c)) p.

(** A notification of a completed sentence: ["AI: "] and a trimmed piece
    of more than 10 code units. *)
Definition sentence_notice (n : jsstring * Level) : Prop :=
  exists piece,
    n = (lit "AI: " ++ trim piece, info) /\
    10 < length (trim piece) /\
    trimmed (trim piece) = true.

(** The effects a turn of the loop can have: a notification or a chunk
    event. *)
Definition loop_effect (e : Effect) : bool :=
  match e with
  | LogToDebug _ _ => true
  | ResWrite (Chunk _) => true
  | _ => false
  end.

(** The record that a call of [logToDebug] sends. *)
Definition record_of (ts message : jsstring) (lvl : Level) : LogRecord :=
  {| timestamp := ts; level := lvl; message := message |}.

(** The lines an event writes with [console.log], and the record it
    broadcasts. *)
Definition logs_of (ev : Event) : list LogRecord :=
  match ev with
  | Connection ts _ => [record_of ts (lit "Debug console connected") success]
  | Close ts _ => [record_of ts (lit "Debug console disconnected") info]
  | Log ts m lvl => [record_of ts m lvl]
  | SetReadyState _ _ => []
  end.

(** A notification of severity error. *)
Definition is_error (n : jsstring * Level) : bool :=
  match snd n with
  | error => true
  | _ => false
  end.

(** The line that [console.log] prints for a record. *)
Definition line_of (log : LogRecord) : jsstring :=
  lit "[" ++ timestamp log ++ lit "] " ++ message log.

(** Whether an event is about the socket [x] itself: its connection, its
    close, or a change of its [readyState]. *)
Definition touches (x : nat) (ev : Event) : bool :=
  match ev with
  | Connection _ y | Close _ y | SetReadyState y _ => bool_decide (y = x)
  | Log _ _ _ => false
  end.

End Trace.

Import FanOut Stream.

(** * Facts about the string primitives *)

Section StringFacts.

Implicit Types p s u v : jsstring.

Lemma startsWith_spec p s :
  startsWith p s = true <-> s = p ++ drop (length p) s.
Proof.
  revert s; induction p as [|a p IH]; intros [|b s]; simpl; try easy.
  rewrite andb_true_iff, N.eqb_eq, IH. split.
  - intros [-> E]. now f_equal.
  - intros E. injection E as -> E. auto.
Qed.

Lemma startsWith_app p u v :
  startsWith p u = true -> startsWith p (u ++ v) = true.
Proof.
  revert u; induction p as [|a p IH]; intros [|b u]; simpl; try easy.
  rewrite !andb_true_iff. intros [? ?]; auto.
Qed.

Lemma startsWith_self p v : startsWith p (p ++ v) = true.
Proof.
  induction p as [|a p IH]; simpl; [reflexivity|].
  now rewrite N.eqb_refl.
Qed.

Lemma startsWith_length p s : startsWith p s = true -> length p <= length s.
Proof.
  revert s; induction p as [|a p IH]; intros [|b s]; simpl; try easy; try lia.
  rewrite andb_true_iff. intros [_ H]. apply IH in H. lia.
Qed.

Lemma includes_cons p c s :
  includes p (c :: s) = startsWith p (c :: s) || includes p s.
Proof.
  unfold includes. cbn [indexOf].
  destruct (startsWith p (c :: s)); [reflexivity|].
  now destruct (indexOf p s).
Qed.

Lemma includes_nil p : includes p [] = startsWith p [].
Proof. unfold includes; simpl. now destruct (startsWith p []). Qed.

Lemma includes_app_l p u v :
  includes p u = true -> includes p (u ++ v) = true.
Proof.
  induction u as [|c u IH].
  - rewrite includes_nil. destruct p; [|discriminate]. intros _.
    unfold includes. now destruct v.
  - simpl. rewrite !includes_cons, !orb_true_iff. intros [H|H].
    + left. now apply (startsWith_app p (c :: u) v).
    + right. auto.
Qed.

Lemma includes_app_r p u v :
  includes p v = true -> includes p (u ++ v) = true.
Proof.
  intros H. induction u as [|c u IH]; [exact H|].
  simpl. rewrite includes_cons, IH. apply orb_true_r.
Qed.

Lemma includes_app_false_l p u v :
  includes p (u ++ v) = false -> includes p u = false.
Proof.
  intros H. destruct (includes p u) eqn:E; [|reflexivity].
  now rewrite (includes_app_l _ _ v E) in H.
Qed.

Lemma indexOf_split p s i :
  indexOf p s = Some i -> s = take i s ++ p ++ drop (i + length p) s.
Proof.
  revert i; induction s as [|c s IH]; intros i; cbn [indexOf].
  - destruct (startsWith p []) eqn:E; [|discriminate].
    intros [= <-]. now apply startsWith_spec.
  - destruct (startsWith p (c :: s)) eqn:E.
    + intros [= <-]. now apply startsWith_spec.
    + destruct (indexOf p s) as [j|]; [|discriminate].
      intros [= <-]. simpl. f_equal. now apply IH.
Qed.

Lemma indexOf_length p s i : indexOf p s = Some i -> i + length p <= length s.
Proof.
  revert i; induction s as [|c s IH]; intros i; cbn [indexOf].
  - destruct (startsWith p []) eqn:E; [|discriminate].
    intros [= <-]. now apply startsWith_length in E.
  - destruct (startsWith p (c :: s)) eqn:E.
    + intros [= <-]. now apply startsWith_length in E.
    + destruct (indexOf p s) as [j|]; [|discriminate].
      intros [= <-]. specialize (IH j eq_refl). simpl. lia.
Qed.

(** [indexOf] finds the first occurrence: none lies before it. *)
Lemma indexOf_first p s i :
  p <> [] -> indexOf p s = Some i -> includes p (take i s) = false.
Proof.
  intros Hp. revert i; induction s as [|c s IH]; intros i; cbn [indexOf].
  - destruct p; [easy|]. discriminate.
  - destruct (startsWith p (c :: s)) eqn:E.
    + intros [= <-]. simpl. rewrite includes_nil. now destruct p.
    + destruct (indexOf p s) as [j|] eqn:Ej; [|discriminate].
      intros [= <-]. simpl. rewrite includes_cons, (IH j eq_refl), orb_false_r.
      destruct (startsWith p (c :: take j s)) eqn:E'; [|reflexivity].
      apply (startsWith_app _ _ (drop j s)) in E'.
      simpl in E'. rewrite take_drop in E'. congruence.
Qed.

Lemma includes_indexOf p s :
  includes p s = true <-> exists i, indexOf p s = Some i.
Proof.
  unfold includes. destruct (indexOf p s); split; eauto; try easy.
  now intros [? ?].
Qed.

(** [split_fuel] does not depend on the fuel once there is enough of it. *)
Lemma split_fuel_enough sep s n m :
  sep <> [] -> length s <= n -> length s <= m ->
  split_fuel n sep s = split_fuel m sep s.
Proof.
  intros Hsep. revert s m; induction n as [|n IH]; intros s m Hn Hm.
  - destruct m; simpl; destruct (indexOf sep s) as [j|] eqn:E; try reflexivity.
    apply indexOf_length in E. destruct sep; [easy|]. simpl in E. lia.
  - simpl. destruct (indexOf sep s) as [j|] eqn:E;
      [|destruct m; simpl; now rewrite E].
    pose proof (indexOf_length _ _ _ E) as Hl.
    assert (0 < length sep) by (destruct sep; [easy|simpl; lia]).
    destruct m; [lia|]. simpl. rewrite E. f_equal.
    apply IH; rewrite length_drop; lia.
Qed.

(** The equation of [String.prototype.split] with a string separator. *)
Lemma split_unfold sep s :
  sep <> [] ->
  split sep s =
  match indexOf sep s with
  | None => [s]
  | Some j => take j s :: split sep (drop (j + length sep) s)
  end.
Proof.
  intros Hsep. unfold split.
  destruct (indexOf sep s) as [j|] eqn:E.
  - pose proof (indexOf_length _ _ _ E) as Hl.
    assert (0 < length sep) by (destruct sep; [easy|simpl; lia]).
    destruct (length s) as [|n] eqn:En; [lia|].
    simpl. rewrite E. f_equal.
    apply split_fuel_enough; trivial; rewrite length_drop; lia.
  - destruct (length s); simpl; now rewrite E.
Qed.

(** No piece of a split contains the separator. *)
Lemma split_pieces sep s :
  sep <> [] -> Forall (fun piece => includes sep piece = false) (split sep s).
Proof.
  intros Hsep.
  remember (length s) as n eqn:En.
  revert s En; induction n as [n IH] using lt_wf_ind; intros s ->.
  rewrite split_unfold by trivial.
  destruct (indexOf sep s) as [j|] eqn:E.
  - constructor; [now apply indexOf_first|].
    pose proof (indexOf_length _ _ _ E) as Hl.
    assert (0 < length sep) by (destruct sep; [easy|simpl; lia]).
    eapply IH; [|reflexivity]. rewrite length_drop. lia.
  - constructor; [|constructor]. unfold includes. now rewrite E.
Qed.

Lemma trimStart_suffix s : exists a, s = a ++ trimStart s.
Proof.
  induction s as [|c s [a IH]]; [now exists []|].
  simpl. destruct (is_space c).
  - exists (c :: a). simpl. now f_equal.
  - now exists [].
Qed.

(** [trim] returns a substring of its argument. *)
Lemma trim_substring s : exists a b, s = a ++ trim s ++ b.
Proof.
  unfold trim, trimEnd.
  destruct (trimStart_suffix s) as [a Ha].
  destruct (trimStart_suffix (rev (trimStart s))) as [b Hb].
  exists a, (rev b).
  rewrite <- rev_app_distr, <- Hb, rev_involutive. exact Ha.
Qed.

Lemma includes_trim p s : includes p s = false -> includes p (trim s) = false.
Proof.
  intros H. destruct (trim_substring s) as (a & b & E).
  destruct (includes p (trim s)) eqn:Et; [|reflexivity].
  rewrite E in H.
  now rewrite (includes_app_r p a _ (includes_app_l p _ b Et)) in H.
Qed.

End StringFacts.

(** * The result extraction *)

Section Extraction.

Implicit Types text before after : jsstring.

Lemma RESULT_nonempty : RESULT <> [].
Proof. discriminate. Qed.

Lemma indexOf_self p v : indexOf p (p ++ v) = Some 0.
Proof.
  pose proof (startsWith_self p v) as H.
  destruct (p ++ v); cbn [indexOf]; now rewrite H.
Qed.

Lemma includes_self p v : includes p (p ++ v) = true.
Proof. unfold includes. now rewrite indexOf_self. Qed.

(** [RESULT:] has no border: an occurrence that starts inside [u] and runs
    into a following [RESULT:] would need a second [R] among [ESULT:]. *)
Lemma RESULT_no_overlap u v :
  u <> [] -> startsWith RESULT (u ++ RESULT ++ v) = true ->
  startsWith RESULT u = true.
Proof.
  intros Hu.
  destruct u as [|c1 [|c2 [|c3 [|c4 [|c5 [|c6 [|c7 u]]]]]]]; [easy|..];
    cbn; intros H; repeat rewrite ?andb_false_r, ?andb_false_l in H;
    try discriminate H; exact H.
Qed.

(** With no occurrence in [before], the first occurrence in
    [before ++ RESULT ++ after] is the one written out. *)
Lemma indexOf_RESULT_app before after :
  includes RESULT before = false ->
  indexOf RESULT (before ++ RESULT ++ after) = Some (length before).
Proof.
  induction before as [|c before IH]; intros H.
  - exact (indexOf_self RESULT after).
  - rewrite includes_cons in H. apply orb_false_iff in H as [H1 H2].
    cbn [app indexOf length].
    destruct (startsWith RESULT (c :: before ++ RESULT ++ after)) eqn:E.
    + apply (RESULT_no_overlap (c :: before)) in E; [congruence|discriminate].
    + now rewrite (IH H2).
Qed.

(** What the code computes when the marker is there: [parts[0]] is the text
    before the first occurrence, [parts[1]] the text between the first
    occurrence and the next one (or the end). *)
Lemma extract_marked text i :
  indexOf RESULT text = Some i ->
  let rest := drop (i + length RESULT) text in
  extract text =
  {| resultText :=
       trim (match indexOf RESULT rest with
             | Some j => take j rest
             | None => rest
             end);
     reasoningText := trim (replace REASONING [] (take i text)) |}.
Proof.
  intros E rest. unfold extract, includes. rewrite E.
  rewrite (split_unfold RESULT text RESULT_nonempty), E.
  cbn [nth]. fold rest.
  rewrite (split_unfold RESULT rest RESULT_nonempty).
  now destruct (indexOf RESULT rest).
Qed.

Lemma extract_unmarked text :
  includes RESULT text = false ->
  extract text = {| resultText := text; reasoningText := [] |}.
Proof. intros H. unfold extract. now rewrite H. Qed.

Lemma extract_once before after :
  includes RESULT before = false ->
  includes RESULT after = false ->
  extract (before ++ RESULT ++ after) =
  {| resultText := trim after;
     reasoningText := trim (replace REASONING [] before) |}.
Proof.
  intros Hb Ha.
  rewrite (extract_marked _ _ (indexOf_RESULT_app before after Hb)). cbn zeta.
  rewrite take_app_length.
  rewrite drop_app_add, drop_app_length.
  unfold includes in Ha. now destruct (indexOf RESULT after).
Qed.

Lemma replace_leading p v : replace p [] (p ++ v) = v.
Proof.
  unfold replace. rewrite indexOf_self. cbn [take app Nat.add].
  apply drop_app_length.
Qed.

Lemma replace_absent p r s : includes p s = false -> replace p r s = s.
Proof. unfold includes, replace. now destruct (indexOf p s). Qed.

(** The extracted result never contains the marker. *)
Lemma extract_result_unmarked text :
  includes RESULT (resultText (extract text)) = false.
Proof.
  unfold extract. destruct (includes RESULT text) eqn:E; [|exact E].
  cbn [resultText]. apply includes_trim.
  pose proof (split_pieces RESULT text RESULT_nonempty) as HF.
  destruct (split RESULT text) as [|p0 [|p1 ps]]; try reflexivity.
  cbn [nth]. now inversion HF as [|? ? _ [|? ? H1 _]].
Qed.

End Extraction.

(** C1 (as amended).  For a text that contains [RESULT:] exactly once,
    [resultText] is everything after the marker, trimmed, and
    [reasoningText] is everything before it with the first occurrence of
    [REASONING:] removed, wherever in that text it stands, trimmed: a
    leading [REASONING:] is stripped, and where there is none the text
    before the marker is kept whole.  For a text without [RESULT:],
    [resultText] is the entire text and [reasoningText] is empty. *)
Theorem extract_single_marker :
  (forall before after : jsstring,
      includes RESULT before = false ->
      includes RESULT after = false ->
      extract (before ++ RESULT ++ after) =
      {| resultText := trim after;
         reasoningText := trim (replace REASONING [] before) |}) /\
  (forall thoughts : jsstring,
      replace REASONING [] (REASONING ++ thoughts) = thoughts) /\
  (forall before : jsstring,
      includes REASONING before = false ->
      replace REASONING [] before = before) /\
  (forall text : jsstring,
      includes RESULT text = false ->
      extract text = {| resultText := text; reasoningText := [] |}).
Proof.
  split; [exact extract_once|].
  split; [intros; apply replace_leading|].
  split; [intros; now apply replace_absent|].
  exact extract_unmarked.
Qed.

Lemma extract_single_marker_witness :
  includes RESULT (lit "REASONING: close and affordable. ") = false /\
  includes RESULT (lit " [1,2,3] ") = false /\
  extract (lit "REASONING: close and affordable. RESULT: [1,2,3] ") =
  {| resultText := lit "[1,2,3]";
     reasoningText := lit "close and affordable." |}.
Proof.
  split; [reflexivity|]. split; [reflexivity|].
  exact (proj1 extract_single_marker
           (lit "REASONING: close and affordable. ") (lit " [1,2,3] ")
           eq_refl eq_refl).
Defined.

(** C1, as stated, fails on the code: with a second [RESULT:] the code
    keeps only the text between the first two markers, and a
    [REASONING:] that does not lead the text is removed all the same. *)
Lemma extract_first_occurrence_counterexample :
  extract (lit "xx REASONING: yy RESULT: a RESULT: b") =
  {| resultText := lit "a"; reasoningText := lit "xx  yy" |} /\
  extract_as_specified (lit "xx REASONING: yy RESULT: a RESULT: b") =
  {| resultText := lit "a RESULT: b";
     reasoningText := lit "xx REASONING: yy" |} /\
  extract (lit "xx REASONING: yy RESULT: a RESULT: b") <>
  extract_as_specified (lit "xx REASONING: yy RESULT: a RESULT: b").
Proof. repeat split; try reflexivity. discriminate. Qed.

(** C7.  The extraction is a function of the text alone, and it is
    idempotent: the extracted [resultText] never contains [RESULT:], and
    the extractor applied to a text without [RESULT:], hence to any
    extracted [resultText], returns that text unchanged as [resultText],
    with an empty [reasoningText]. *)
Theorem extract_idempotent :
  (forall text1 text2 : jsstring,
      text1 = text2 -> extract text1 = extract text2) /\
  (forall result : jsstring,
      includes RESULT result = false ->
      extract result = {| resultText := result; reasoningText := [] |}) /\
  (forall text : jsstring,
      includes RESULT (resultText (extract text)) = false /\
      extract (resultText (extract text)) =
      {| resultText := resultText (extract text); reasoningText := [] |}).
Proof.
  split; [now intros ? ? ->|].
  split; [exact extract_unmarked|].
  intros text. split; [apply extract_result_unmarked|].
  apply extract_unmarked, extract_result_unmarked.
Qed.

Lemma extract_idempotent_witness :
  includes RESULT (lit "[{}]") = false /\
  extract (lit "[{}]") =
  {| resultText := lit "[{}]"; reasoningText := [] |}.
Proof.
  split; [reflexivity|].
  exact (proj1 (proj2 extract_idempotent) (lit "[{}]") eq_refl).
Defined.

(** * The streaming loop *)

Section Classifier.

Implicit Types content : jsstring.
Implicit Types st : StreamState.

Lemma truthy_trim content : truthy (trim content) = true -> truthy content = true.
Proof. now destruct content. Qed.

Lemma truthy_length s : truthy s = (0 <? length s).
Proof. now destruct s. Qed.

Lemma log_sentence_threshold piece :
  log_sentence piece =
  if 10 <? length (trim piece)
  then [LogToDebug (lit "AI: " ++ trim piece) info]
  else [].
Proof.
  unfold log_sentence. rewrite truthy_length.
  destruct (10 <? length (trim piece)) eqn:E; [|now rewrite andb_false_r].
  apply Nat.ltb_lt in E.
  assert ((0 <? length (trim piece)) = true) as -> by (apply Nat.ltb_lt; lia).
  reflexivity.
Qed.

Lemma log_sentences_filter pieces :
  flat_map log_sentence pieces =
  List.map (fun piece => LogToDebug (lit "AI: " ++ trim piece) info)
           (List.filter (fun piece => 10 <? length (trim piece)) pieces).
Proof.
  induction pieces as [|piece pieces IH]; [reflexivity|].
  cbn [flat_map List.filter]. rewrite IH, log_sentence_threshold.
  now destruct (10 <? length (trim piece)).
Qed.

(** A turn of the loop while [inReasoning] holds and the buffer does not
    come to contain [RESULT:]. *)
Lemma process_chunk_reasoning st content :
  inReasoning st = true ->
  truthy content = true ->
  includes RESULT (reasoningBuffer st ++ content) = false ->
  process_chunk (Some content) st =
  let (st', es) :=
    log_reasoning content
      {| fullResponse := fullResponse st ++ content;
         reasoningBuffer := reasoningBuffer st ++ content;
         inReasoning := true |} in
  (st', es ++ [ResWrite (Chunk content)]).
Proof.
  intros HR HT HN.
  unfold process_chunk, content_of. rewrite HT.
  unfold seq, append, detect_reasoning, detect_result, relay.
  cbn [reasoningBuffer inReasoning fullResponse].
  rewrite HR. cbn [negb]. rewrite andb_false_r.
  cbn [reasoningBuffer inReasoning fullResponse]. rewrite HN. cbn [andb].
  destruct (log_reasoning content _) as [st' es]. now rewrite app_nil_l.
Qed.

End Classifier.

(** C2 (as amended).  In [IN_REASONING], for a fragment that does not
    bring [RESULT:] into the buffer, that is not blank and that contains
    a full stop or a newline: the buffer, with the fragment appended, is
    split at the sentence boundaries, ["AI: " + sentence] is logged with
    severity info for exactly the completed sentences (all pieces but the
    last) whose trimmed length exceeds 10, in order, so that a completed
    sentence of trimmed length 10 or fewer is not logged and one of 11 or
    more is, and the last piece becomes the new buffer. *)
Theorem sentence_logging (st : StreamState) (content : jsstring) :
  inReasoning st = true ->
  includes RESULT (reasoningBuffer st ++ content) = false ->
  truthy (trim content) = true ->
  includes (lit ".") content || includes [10%N] content = true ->
  let sentences := split_sentences (reasoningBuffer st ++ content) in
  let completed := removelast sentences in
  let logged :=
    List.map (fun piece => LogToDebug (lit "AI: " ++ trim piece) info)
             (List.filter (fun piece => 10 <? length (trim piece)) completed) in
  process_chunk (Some content) st =
    ({| fullResponse := fullResponse st ++ content;
        reasoningBuffer := List.last sentences [];
        inReasoning := true |},
     logged ++ [ResWrite (Chunk content)]) /\
  (forall piece, In piece completed -> length (trim piece) <= 10 ->
                 ~ In (LogToDebug (lit "AI: " ++ trim piece) info) logged) /\
  (forall piece, In piece completed -> 11 <= length (trim piece) ->
                 In (LogToDebug (lit "AI: " ++ trim piece) info) logged).
Proof.
  intros HR HN HT HD sentences completed logged.
  split; [|split].
  - rewrite process_chunk_reasoning by auto using truthy_trim.
    unfold log_reasoning. cbn [inReasoning reasoningBuffer fullResponse].
    rewrite HT, HD. cbn [andb]. now rewrite log_sentences_filter.
  - intros piece _ Hlen Hin. unfold logged in Hin.
    apply in_map_iff in Hin as (piece' & Heq & Hin).
    apply filter_In in Hin as [_ Hlt]. apply Nat.ltb_lt in Hlt.
    injection Heq as Heq. rewrite Heq in Hlt. lia.
  - intros piece Hin Hlen. unfold logged.
    apply in_map_iff. exists piece. split; [reflexivity|].
    apply filter_In. split; [exact Hin|]. apply Nat.ltb_lt. lia.
Qed.

Lemma sentence_logging_witness :
  process_chunk (Some (lit "more text. Short one. A longer sentence! and"))
                (fst (process_chunk (Some (lit " hello world. ")) reasoning_started)) =
  ({| fullResponse :=
        lit "REASONING: hello world. more text. Short one. A longer sentence! and";
      reasoningBuffer := lit "and";
      inReasoning := true |},
   [LogToDebug (lit "AI: A longer sentence!") info;
    ResWrite (Chunk (lit "more text. Short one. A longer sentence! and"))]).
Proof.
  exact (proj1 (sentence_logging
                  (fst (process_chunk (Some (lit " hello world. "))
                                      reasoning_started))
                  (lit "more text. Short one. A longer sentence! and")
                  eq_refl eq_refl eq_refl eq_refl)).
Defined.

(** C2, as stated, fails on the code: the split is triggered by a full
    stop or a newline in a non-blank fragment only.  A fragment with ["? "]
    leaves a completed sentence of 20 characters in the buffer unlogged,
    and so does a fragment that is a newline alone. *)
Lemma sentence_trigger_counterexample :
  fst (run_stream [Some (lit "REASONING:")] initial) = reasoning_started /\
  split_sentences (lit "Is this a good plan? yes") =
    [lit "Is this a good plan?"; lit "yes"] /\
  process_chunk (Some (lit "Is this a good plan? yes")) reasoning_started =
    ({| fullResponse := lit "REASONING:Is this a good plan? yes";
        reasoningBuffer := lit "Is this a good plan? yes";
        inReasoning := true |},
     [ResWrite (Chunk (lit "Is this a good plan? yes"))]) /\
  split_sentences (lit "Is this a good plan?" ++ [10%N]) =
    [lit "Is this a good plan?"; []] /\
  run_stream [Some (lit "Is this a good plan?"); Some [10%N]] reasoning_started =
    ({| fullResponse := lit "REASONING:Is this a good plan?" ++ [10%N];
        reasoningBuffer := lit "Is this a good plan?" ++ [10%N];
        inReasoning := true |},
     [ResWrite (Chunk (lit "Is this a good plan?")); ResWrite (Chunk [10%N])]).
Proof. repeat split; reflexivity. Qed.

Section Terminal.

Implicit Types st : StreamState.
Implicit Types chunks : list (option jsstring).

Lemma run_stream_cons chunk chunks st :
  run_stream (chunk :: chunks) st =
  let (st1, e1) := process_chunk chunk st in
  let (st2, e2) := run_stream chunks st1 in
  (st2, e1 ++ e2).
Proof. reflexivity. Qed.

Lemma notifications_app es1 es2 :
  notifications (es1 ++ es2) = notifications es1 ++ notifications es2.
Proof. unfold notifications. apply flat_map_app. Qed.

Lemma relayed_app es1 es2 : relayed (es1 ++ es2) = relayed es1 ++ relayed es2.
Proof. unfold relayed. apply flat_map_app. Qed.

(** Outside of a reasoning section, a turn that does not bring
    [REASONING:] into the buffer only appends and relays. *)
Lemma process_chunk_idle st content :
  inReasoning st = false ->
  truthy content = true ->
  includes REASONING (reasoningBuffer st ++ content) = false ->
  process_chunk (Some content) st =
  ({| fullResponse := fullResponse st ++ content;
      reasoningBuffer := reasoningBuffer st ++ content;
      inReasoning := false |},
   [ResWrite (Chunk content)]).
Proof.
  intros HR HT HN. unfold process_chunk, content_of. rewrite HT.
  unfold seq, append, detect_reasoning, detect_result, log_reasoning, relay.
  cbn [reasoningBuffer inReasoning fullResponse].
  rewrite HN. cbn [andb reasoningBuffer inReasoning fullResponse].
  rewrite HR, andb_false_r. reflexivity.
Qed.

Lemma process_chunk_empty chunk st :
  truthy (content_of chunk) = false -> process_chunk chunk st = (st, []).
Proof. intros H. unfold process_chunk. now rewrite H. Qed.

Lemma truthy_false s : truthy s = false -> s = [].
Proof. now destruct s. Qed.

Lemma run_stream_idle chunks st :
  inReasoning st = false ->
  includes REASONING (reasoningBuffer st ++ text_of chunks) = false ->
  notifications (snd (run_stream chunks st)) = [] /\
  inReasoning (fst (run_stream chunks st)) = false /\
  reasoningBuffer (fst (run_stream chunks st)) =
    reasoningBuffer st ++ text_of chunks.
Proof.
  revert st; induction chunks as [|chunk chunks IH]; intros st HR HN.
  - cbn. now rewrite app_nil_r.
  - rewrite run_stream_cons. unfold text_of in *. cbn [List.map concat] in *.
    destruct (truthy (content_of chunk)) eqn:HT.
    + rewrite app_assoc in HN.
      assert (process_chunk chunk st = process_chunk (Some (content_of chunk)) st)
        as -> by reflexivity.
      rewrite process_chunk_idle; eauto using includes_app_false_l.
      specialize (IH {| fullResponse := fullResponse st ++ content_of chunk;
                        reasoningBuffer := reasoningBuffer st ++ content_of chunk;
                        inReasoning := false |} eq_refl HN).
      destruct (run_stream chunks _) as [st2 e2].
      cbn [fst snd reasoningBuffer] in *.
      destruct IH as (IH1 & IH2 & IH3).
      rewrite notifications_app, IH1, IH3, app_assoc. now split.
    + rewrite process_chunk_empty by exact HT.
      apply truthy_false in HT. rewrite HT in *. cbn [app] in HN.
      specialize (IH st HR HN).
      destruct (run_stream chunks st) as [st2 e2]. exact IH.
Qed.

Lemma log_sentence_info piece m :
  ~ In (LogToDebug m success) (log_sentence piece).
Proof.
  unfold log_sentence. destruct (_ && _); [|easy].
  intros [H|[]]. discriminate H.
Qed.

Lemma log_sentences_info pieces m :
  ~ In (LogToDebug m success) (flat_map log_sentence pieces).
Proof.
  intros H. apply in_flat_map in H as (piece & _ & H).
  exact (log_sentence_info _ _ H).
Qed.

(** A turn that logs with severity success is one that detected
    [RESULT:]; it leaves the loop outside of the reasoning section, with
    an empty buffer. *)
Lemma process_chunk_completed chunk st st' es m :
  process_chunk chunk st = (st', es) ->
  In (LogToDebug m success) es ->
  inReasoning st' = false /\ reasoningBuffer st' = [].
Proof.
  unfold process_chunk, skip. destruct (truthy (content_of chunk)).
  2:{ cbn beta. intros [= <- <-] []. }
  unfold seq, append, detect_reasoning, detect_result, log_reasoning, relay.
  cbn [reasoningBuffer inReasoning fullResponse].
  destruct (includes REASONING _ && negb _);
    cbn [reasoningBuffer inReasoning fullResponse];
    destruct (includes RESULT _ && _) eqn:ER;
    cbn [reasoningBuffer inReasoning fullResponse andb];
    try (intros [= <- <-] _; now split).
  all: repeat match goal with
              | |- context [if ?c then _ else _] => destruct c
              end;
    intros [= <- <-] Hin; exfalso;
    repeat (apply in_app_iff in Hin as [Hin|Hin]);
    try (now apply log_sentences_info in Hin);
    repeat (destruct Hin as [Hin|Hin]; try discriminate Hin); easy.
Qed.

End Terminal.

Section Relay.

Implicit Types st : StreamState.
Implicit Types chunks : list (option jsstring).

Lemma text_of_app chunks1 chunks2 :
  text_of (chunks1 ++ chunks2) = text_of chunks1 ++ text_of chunks2.
Proof. unfold text_of. now rewrite map_app, concat_app. Qed.

Lemma notifications_per_chunk_concat chunks st :
  concat (notifications_per_chunk chunks st) =
  notifications (snd (run_stream chunks st)).
Proof.
  revert st; induction chunks as [|chunk chunks IH]; intros st; [reflexivity|].
  rewrite run_stream_cons. cbn [notifications_per_chunk].
  destruct (process_chunk chunk st) as [st1 e1].
  specialize (IH st1). destruct (run_stream chunks st1) as [st2 e2].
  cbn [concat snd] in *. now rewrite notifications_app, IH.
Qed.

(** [fullResponse] only grows, by each fragment in turn. *)
Lemma process_chunk_fullResponse chunk st :
  fullResponse (fst (process_chunk chunk st)) =
  fullResponse st ++ content_of chunk.
Proof.
  unfold process_chunk, skip. destruct (truthy (content_of chunk)) eqn:HT.
  - unfold seq, append, detect_reasoning, detect_result, log_reasoning, relay.
    cbn [reasoningBuffer inReasoning fullResponse].
    repeat match goal with
           | |- context [if ?c then _ else _] =>
               destruct c; cbn [reasoningBuffer inReasoning fullResponse]
           end; reflexivity.
  - apply truthy_false in HT. rewrite HT. cbn. now rewrite app_nil_r.
Qed.

Lemma run_stream_fullResponse chunks st :
  fullResponse (fst (run_stream chunks st)) = fullResponse st ++ text_of chunks.
Proof.
  revert st; induction chunks as [|chunk chunks IH]; intros st.
  - cbn. now rewrite app_nil_r.
  - rewrite run_stream_cons.
    pose proof (process_chunk_fullResponse chunk st) as H1.
    destruct (process_chunk chunk st) as [st1 e1].
    specialize (IH st1). destruct (run_stream chunks st1) as [st2 e2].
    cbn [fst] in *. rewrite IH, H1. unfold text_of. cbn [List.map concat].
    now rewrite app_assoc.
Qed.

Lemma relayed_log_sentences pieces : relayed (flat_map log_sentence pieces) = [].
Proof.
  induction pieces as [|piece pieces IH]; [reflexivity|].
  cbn [flat_map]. rewrite relayed_app, IH, app_nil_r.
  unfold log_sentence. now destruct (_ && _).
Qed.

Lemma last_snoc {A} (l : list A) (x d : A) : List.last (l ++ [x]) d = x.
Proof. apply last_last. Qed.

(** A non-empty fragment is written to the response once, as the last
    effect of its turn, whatever the state. *)
Lemma process_chunk_relays st content :
  truthy content = true ->
  relayed (snd (process_chunk (Some content) st)) = [content] /\
  List.last (snd (process_chunk (Some content) st)) ResEnd =
    ResWrite (Chunk content).
Proof.
  intros HT. unfold process_chunk, content_of. rewrite HT.
  unfold seq, append, detect_reasoning, detect_result, log_reasoning, relay.
  cbn [reasoningBuffer inReasoning fullResponse].
  repeat match goal with
         | |- context [if ?c then _ else _] =>
             destruct c; cbn [reasoningBuffer inReasoning fullResponse]
         end;
    cbn [snd]; rewrite last_snoc; (split; [|reflexivity]);
    rewrite ?relayed_app, ?relayed_log_sentences; reflexivity.
Qed.

Lemma run_stream_relays chunks st :
  relayed (snd (run_stream chunks st)) =
  List.filter truthy (List.map content_of chunks).
Proof.
  revert st; induction chunks as [|chunk chunks IH]; intros st; [reflexivity|].
  rewrite run_stream_cons. cbn [List.map List.filter].
  destruct (truthy (content_of chunk)) eqn:HT.
  - pose proof (process_chunk_relays st _ HT) as [H1 _].
    change (process_chunk (Some (content_of chunk)) st)
      with (process_chunk chunk st) in H1.
    destruct (process_chunk chunk st) as [st1 e1].
    specialize (IH st1). destruct (run_stream chunks st1) as [st2 e2].
    cbn [snd] in *. now rewrite relayed_app, H1, IH.
  - rewrite process_chunk_empty by exact HT.
    specialize (IH st). now destruct (run_stream chunks st).
Qed.

End Relay.

(** C3 (as amended).  Once [RESULT:] has been detected (the success
    notification emitted), the loop is outside of the reasoning section
    with an empty buffer, and as long as the fragments that follow do not
    spell [REASONING:] it emits no notification, in particular not
    ["AI started reasoning process..."], and does not re-enter the
    reasoning section. *)
Theorem after_result_no_restart (chunk : option jsstring)
    (st st' : StreamState) (es : list Effect)
    (rest : list (option jsstring)) :
  process_chunk chunk st = (st', es) ->
  In (LogToDebug (fst completed) (snd completed)) es ->
  includes REASONING (text_of rest) = false ->
  inReasoning st' = false /\
  reasoningBuffer st' = [] /\
  forall k,
    notifications (snd (run_stream (take k rest) st')) = [] /\
    inReasoning (fst (run_stream (take k rest) st')) = false.
Proof.
  intros Hstep Hin Hrest.
  destruct (process_chunk_completed _ _ _ _ _ Hstep Hin) as [HR HB].
  split; [exact HR|]. split; [exact HB|]. intros k.
  rewrite <- (take_drop k rest), text_of_app in Hrest.
  apply includes_app_false_l in Hrest.
  destruct (run_stream_idle (take k rest) st' HR) as (H1 & H2 & _).
  - now rewrite HB.
  - now split.
Qed.

Lemma after_result_no_restart_witness :
  inReasoning (fst (process_chunk (Some (lit " done. RESULT: [1]"))
                                  reasoning_started)) = false /\
  notifications
    (snd (run_stream [Some (lit ","); None; Some (lit "[2]")]
            (fst (process_chunk (Some (lit " done. RESULT: [1]"))
                                reasoning_started)))) = [].
Proof.
  destruct (after_result_no_restart
              (Some (lit " done. RESULT: [1]")) reasoning_started _ _
              [Some (lit ","); None; Some (lit "[2]")]
              eq_refl (or_introl eq_refl) eq_refl) as (H1 & _ & H3).
  split; [exact H1|exact (proj1 (H3 3))].
Defined.

(** C3, as stated, fails on the code: the loop has one flag and no third
    state, and a [REASONING:] that arrives after [RESULT:] starts a
    reasoning section again. *)
Lemma after_result_reentry_counterexample :
  notifications_per_chunk
    [Some (lit "REASONING:"); Some (lit " fine. RESULT:");
     Some (lit " REASONING: again")] initial =
  [[started]; [completed]; [started]] /\
  inReasoning
    (fst (run_stream
            [Some (lit "REASONING:"); Some (lit " fine. RESULT:");
             Some (lit " REASONING: again")] initial)) = true.
Proof. split; reflexivity. Qed.

(** C5.  The six fragments give, turn by turn: nothing, the start
    notification once ["REASONING:"] is complete, ["AI: hello world."],
    nothing for ["more text."] (trimmed length 10), nothing, and the
    success notification once ["RESULT:"] is complete; the accumulated text
    is the concatenation of the fragments.  In general [fullResponse]
    grows by each fragment in turn. *)
Theorem classifier_example_trace :
  notifications_per_chunk
    (List.map Some
       [lit "REAS"; lit "ONING:"; lit " hello world. "; lit "more text. ";
        lit "RE"; lit "SULT: [1,2,3]"]) initial =
  [[]; [started]; [(lit "AI: hello world.", info)]; []; []; [completed]] /\
  notifications
    (snd (run_stream
            (List.map Some
               [lit "REAS"; lit "ONING:"; lit " hello world. ";
                lit "more text. "; lit "RE"; lit "SULT: [1,2,3]"]) initial)) =
  [started; (lit "AI: hello world.", info); completed] /\
  length (trim (lit " hello world.")) = 12 /\
  length (trim (lit "more text.")) = 10 /\
  fullResponse
    (fst (run_stream
            (List.map Some
               [lit "REAS"; lit "ONING:"; lit " hello world. ";
                lit "more text. "; lit "RE"; lit "SULT: [1,2,3]"]) initial)) =
  lit "REAS" ++ lit "ONING:" ++ lit " hello world. " ++ lit "more text. " ++
  lit "RE" ++ lit "SULT: [1,2,3]" /\
  (forall (chunks : list (option jsstring)) (st : StreamState),
      fullResponse (fst (run_stream chunks st)) =
      fullResponse st ++ text_of chunks).
Proof.
  repeat split; try reflexivity. apply run_stream_fullResponse.
Qed.

(** C6 (as amended).  Every non-empty fragment is written to the response
    verbatim as a chunk event, once and as the last effect of its turn,
    whatever the state of the loop; a fragment that is empty or absent is
    skipped altogether.  Over a stream, the chunk events are the non-empty
    fragments in order. *)
Theorem relay_nonempty_fragments :
  (forall (st : StreamState) (content : jsstring),
      truthy content = true ->
      relayed (snd (process_chunk (Some content) st)) = [content] /\
      List.last (snd (process_chunk (Some content) st)) ResEnd =
        ResWrite (Chunk content)) /\
  (forall (st : StreamState) (chunk : option jsstring),
      truthy (content_of chunk) = false ->
      process_chunk chunk st = (st, [])) /\
  (forall (chunks : list (option jsstring)) (st : StreamState),
      relayed (snd (run_stream chunks st)) =
      List.filter truthy (List.map content_of chunks)).
Proof.
  split; [exact process_chunk_relays|].
  split; [intros; now apply process_chunk_empty|].
  exact run_stream_relays.
Qed.

Lemma relay_nonempty_fragments_witness :
  relayed (snd (process_chunk (Some (lit "SULT: [1,2,3]"))
                              reasoning_started)) =
  [lit "SULT: [1,2,3]"].
Proof.
  exact (proj1 (proj1 relay_nonempty_fragments reasoning_started
                      (lit "SULT: [1,2,3]") eq_refl)).
Defined.

(** C6, as stated, fails on the code: a chunk whose content is the empty
    string, or is absent, is a fragment of the stream that is not relayed;
    [if (content)] guards the whole turn. *)
Lemma relay_empty_fragment_counterexample :
  process_chunk (Some []) reasoning_started = (reasoning_started, []) /\
  process_chunk None initial = (initial, []) /\
  relayed (snd (run_stream [Some (lit "a"); Some []; None; Some (lit "b")]
                           initial)) = [lit "a"; lit "b"].
Proof. repeat split; reflexivity. Qed.

(** The handler on a stream of one fragment, from the first turn of the
    loop to the last log. *)
Example handler_one_fragment :
  let (st, es) :=
    run_stream [None; Some (lit "REASONING: close and affordable. RESULT: [1,2,3]")]
               initial in
  es ++ finish (lit "42") st =
  [LogToDebug (lit "AI started reasoning process...") info;
   ResWrite (Chunk (lit "REASONING: close and affordable. RESULT: [1,2,3]"));
   LogToDebug (lit "OpenAI response complete (42ms)") success;
   LogToDebug (lit "AI reasoning summary: close and affordable....") success;
   ResWrite (Done (lit "[1,2,3]"));
   ResEnd;
   LogToDebug (lit "Itinerary generated successfully") success].
Proof. reflexivity. Qed.

(** C10.  A fragment that carries both markers, [REASONING:] before
    [RESULT:], and arrives outside of a reasoning section gives the start
    notification and its chunk event and nothing else: the buffer is
    cleared before [RESULT:] is looked for, so the success notification is
    not emitted in that turn, and the loop stays in the reasoning section.
    The extraction after the loop still cuts the accumulated text at
    [RESULT:]. *)
Theorem both_markers_in_one_fragment (a b c : jsstring) :
  let content := a ++ REASONING ++ b ++ RESULT ++ c in
  (forall st : StreamState,
      inReasoning st = false ->
      process_chunk (Some content) st =
      ({| fullResponse := fullResponse st ++ content;
          reasoningBuffer := [];
          inReasoning := true |},
       [LogToDebug (fst started) (snd started); ResWrite (Chunk content)])) /\
  notifications (snd (run_stream [Some content] initial)) = [started] /\
  fullResponse (fst (run_stream [Some content] initial)) = content /\
  includes RESULT content = true /\
  (includes RESULT (a ++ REASONING ++ b) = false ->
   includes RESULT c = false ->
   extract content =
   {| resultText := trim c;
      reasoningText := trim (replace REASONING [] (a ++ REASONING ++ b)) |}).
Proof.
  intros content.
  assert (forall st : StreamState,
             inReasoning st = false ->
             process_chunk (Some content) st =
             ({| fullResponse := fullResponse st ++ content;
                 reasoningBuffer := [];
                 inReasoning := true |},
              [LogToDebug (fst started) (snd started);
               ResWrite (Chunk content)])) as Hstep.
  { intros st HR. unfold process_chunk, content_of.
    assert (truthy content = true) as -> by (unfold content; now destruct a).
    unfold seq, append, detect_reasoning, detect_result, log_reasoning, relay.
    cbn [reasoningBuffer inReasoning fullResponse].
    assert (includes REASONING (reasoningBuffer st ++ content) = true) as ->
      by (unfold content; apply includes_app_r, includes_app_r, includes_self).
    rewrite HR. cbn [negb andb reasoningBuffer inReasoning fullResponse].
    change (includes RESULT []) with false.
    cbn [negb andb reasoningBuffer inReasoning fullResponse].
    destruct (truthy (trim content)); [destruct (_ || _)|]; reflexivity. }
  split; [exact Hstep|].
  assert (run_stream [Some content] initial =
          ({| fullResponse := content; reasoningBuffer := []; inReasoning := true |},
           [LogToDebug (fst started) (snd started); ResWrite (Chunk content)]))
    as Hrun.
  { rewrite run_stream_cons, (Hstep initial eq_refl). reflexivity. }
  rewrite Hrun. split; [reflexivity|]. split; [reflexivity|].
  split.
  - unfold content. apply includes_app_r, includes_app_r, includes_app_r.
    apply includes_self.
  - intros Hb Hc. unfold content.
    replace (a ++ REASONING ++ b ++ RESULT ++ c)
      with ((a ++ REASONING ++ b) ++ RESULT ++ c)
      by (now rewrite <- !app_assoc).
    now apply extract_once.
Qed.

Lemma both_markers_in_one_fragment_witness :
  process_chunk (Some (lit "REASONING: close and affordable. RESULT: [1]"))
                initial =
  ({| fullResponse := lit "REASONING: close and affordable. RESULT: [1]";
      reasoningBuffer := [];
      inReasoning := true |},
   [LogToDebug (fst started) (snd started);
    ResWrite (Chunk (lit "REASONING: close and affordable. RESULT: [1]"))]) /\
  extract (lit "REASONING: close and affordable. RESULT: [1]") =
  {| resultText := lit "[1]"; reasoningText := lit "close and affordable." |}.
Proof.
  destruct (both_markers_in_one_fragment
              [] (lit " close and affordable. ") (lit " [1]"))
    as (H1 & _ & _ & _ & H5).
  split; [exact (H1 initial eq_refl)|exact (H5 eq_refl eq_refl)].
Defined.

(** * The event fan-out *)

Section Broadcast.

Import FanOut.

Implicit Types srv : Server.
Implicit Types heap : gmap nat Socket.
Implicit Types log : LogRecord.

Lemma deliver_lookup log heap (c x : nat) :
  deliver log heap c !! x =
  if decide (x = c) then received log <$> heap !! x else heap !! x.
Proof.
  unfold deliver, received. case_decide as E.
  - subst x. destruct (heap !! c) as [ws|] eqn:Hc; cbn.
    + destruct (readyState ws =? OPEN).
      * now rewrite lookup_insert_eq.
      * exact Hc.
    + exact Hc.
  - destruct (heap !! c) as [ws|]; [|reflexivity].
    destruct (readyState ws =? OPEN); [|reflexivity].
    now rewrite lookup_insert_ne.
Qed.

Lemma foldl_deliver_lookup log (l : list nat) heap (x : nat) :
  NoDup l ->
  foldl (deliver log) heap l !! x =
  if decide (x ∈ l) then received log <$> heap !! x else heap !! x.
Proof.
  intros Hnd. revert heap.
  induction Hnd as [|c l Hc Hnd IH]; intros heap; cbn [foldl].
  - case_decide as E; [|reflexivity]. now apply elem_of_nil in E.
  - rewrite IH, deliver_lookup.
    destruct (decide (x = c)) as [->|Hne].
    + rewrite decide_False by exact Hc.
      rewrite decide_True by apply list_elem_of_here. reflexivity.
    + destruct (decide (x ∈ l)) as [Hin|Hout].
      * rewrite decide_True by now apply list_elem_of_further. reflexivity.
      * rewrite decide_False; [reflexivity|].
        intros [->|?]%elem_of_cons; contradiction.
Qed.

(** The sockets after a broadcast, one by one. *)
Lemma logToDebug_lookup ts m lvl srv (x : nat) :
  sockets (logToDebug ts m lvl srv) !! x =
  if decide (x ∈ debugClients srv)
  then received {| timestamp := ts; level := lvl; message := m |}
         <$> sockets srv !! x
  else sockets srv !! x.
Proof.
  unfold logToDebug. cbn [sockets].
  rewrite foldl_deliver_lookup by apply NoDup_elements.
  destruct (decide (x ∈ debugClients srv)) as [Hin|Hout].
  - rewrite decide_True by now apply elem_of_elements. reflexivity.
  - rewrite decide_False; [reflexivity|]. now rewrite elem_of_elements.
Qed.

Lemma logToDebug_inbox ts m lvl srv (x : nat) :
  inbox (logToDebug ts m lvl srv) x =
  if bool_decide (x ∈ debugClients srv) && ready srv x
  then inbox srv x ++ [{| timestamp := ts; level := lvl; message := m |}]
  else inbox srv x.
Proof.
  unfold inbox, ready. rewrite logToDebug_lookup.
  destruct (decide (x ∈ debugClients srv)) as [Hin|Hout].
  - rewrite bool_decide_eq_true_2 by exact Hin. cbn [andb].
    destruct (sockets srv !! x) as [ws|]; [|reflexivity].
    cbn. unfold received. now destruct (readyState ws =? OPEN).
  - rewrite bool_decide_eq_false_2 by exact Hout. reflexivity.
Qed.

Lemma logToDebug_unsubscribed ts m lvl srv (x : nat) :
  x ∉ debugClients srv ->
  (x ∉ debugClients (logToDebug ts m lvl srv)) /\
  inbox (logToDebug ts m lvl srv) x = inbox srv x.
Proof.
  intros Hout. split; [exact Hout|].
  rewrite logToDebug_inbox. now rewrite bool_decide_eq_false_2.
Qed.

Lemma set_readyState_inbox (y state : nat) srv (x : nat) :
  inbox (set_readyState y state srv) x = inbox srv x.
Proof.
  unfold inbox, set_readyState. cbn [sockets].
  destruct (sockets srv !! y) as [s|] eqn:Hy; [|reflexivity].
  destruct (decide (x = y)) as [->|Hne].
  - now rewrite lookup_insert_eq, Hy.
  - now rewrite lookup_insert_ne.
Qed.

(** A socket that is not subscribed stays so, and is sent nothing, until a
    connection subscribes it. *)
Lemma handle_unsubscribed ev srv (x : nat) :
  (forall ts, ev <> Connection ts x) ->
  x ∉ debugClients srv ->
  (x ∉ debugClients (handle ev srv)) /\
  inbox (handle ev srv) x = inbox srv x.
Proof.
  intros Hev Hout. destruct ev as [ts y|ts y|ts m lvl|y state]; cbn [handle].
  - assert (x <> y) by (intros ->; now apply (Hev ts)).
    unfold on_connection.
    apply (logToDebug_unsubscribed _ _ _ (add y srv)).
    unfold add; cbn [debugClients].
    intros [?%elem_of_singleton|?]%elem_of_union; contradiction.
  - unfold on_close.
    apply (logToDebug_unsubscribed _ _ _ (delete y srv)).
    unfold delete; cbn [debugClients].
    intros [? _]%elem_of_difference; contradiction.
  - now apply logToDebug_unsubscribed.
  - split; [exact Hout|apply set_readyState_inbox].
Qed.

Lemma run_unsubscribed evs srv (x : nat) :
  (forall ts, Connection ts x ∉ evs) ->
  x ∉ debugClients srv ->
  (x ∉ debugClients (run evs srv)) /\ inbox (run evs srv) x = inbox srv x.
Proof.
  revert srv; induction evs as [|ev evs IH]; intros srv Hevs Hout.
  - now split.
  - unfold run in *. cbn [foldl].
    destruct (handle_unsubscribed ev srv x) as [H1 H2]; [|exact Hout|].
    + intros ts ->. apply (Hevs ts), list_elem_of_here.
    + destruct (IH (handle ev srv)) as [H3 H4]; [|exact H1|].
      * intros ts Hin. apply (Hevs ts). now apply list_elem_of_further.
      * split; [exact H3|]. now rewrite H4.
Qed.

End Broadcast.

(** C9.  A broadcast sends the record to exactly the subscribed sockets
    that are open, once each; a subscribed socket that is not open is
    skipped and stays subscribed, and no other socket is touched.  With no
    subscriber a broadcast touches no socket (and does not fail:
    [logToDebug] is total).  Once a socket is unsubscribed by its close
    handler it is sent nothing more, neither by the broadcast of the close
    handler itself nor by anything that follows, for as long as it is not
    connected again. *)
Theorem broadcast_delivery :
  (forall (ts m : jsstring) (lvl : Level) (srv : Server) (x : nat),
      sockets (logToDebug ts m lvl srv) !! x =
        (if decide (x ∈ debugClients srv)
         then received {| timestamp := ts; level := lvl; message := m |}
                <$> sockets srv !! x
         else sockets srv !! x) /\
      inbox (logToDebug ts m lvl srv) x =
        (if bool_decide (x ∈ debugClients srv) && ready srv x
         then inbox srv x ++
              [{| timestamp := ts; level := lvl; message := m |}]
         else inbox srv x)) /\
  (forall (ts m : jsstring) (lvl : Level) (srv : Server),
      debugClients (logToDebug ts m lvl srv) = debugClients srv) /\
  (forall (ts m : jsstring) (lvl : Level) (srv : Server),
      debugClients srv = ∅ ->
      sockets (logToDebug ts m lvl srv) = sockets srv) /\
  (forall (ts : jsstring) (x : nat) (srv : Server) (evs : list Event),
      (forall ts', Connection ts' x ∉ evs) ->
      (x ∉ debugClients (run evs (on_close ts x srv))) /\
      inbox (on_close ts x srv) x = inbox srv x /\
      inbox (run evs (on_close ts x srv)) x = inbox srv x).
Proof.
  split; [|split; [|split]].
  - intros. split; [apply logToDebug_lookup|apply logToDebug_inbox].
  - reflexivity.
  - intros ts m lvl srv H. unfold logToDebug. cbn [sockets].
    now rewrite H, elements_empty.
  - intros ts x srv evs Hevs.
    assert (x ∉ debugClients (FanOut.delete x srv)) as Hdel.
    { unfold FanOut.delete; cbn [debugClients].
      intros [_ Hx]%elem_of_difference. apply Hx. now apply elem_of_singleton. }
    destruct (logToDebug_unsubscribed ts (lit "Debug console disconnected")
                info _ x Hdel) as [H1 H2].
    fold (on_close ts x srv) in H1, H2.
    destruct (run_unsubscribed evs _ x Hevs H1) as [H3 H4].
    change (inbox (FanOut.delete x srv) x) with (inbox srv x) in H2.
    split; [exact H3|]. split; [exact H2|]. now rewrite H4.
Qed.

Lemma broadcast_delivery_witness :
  inbox (run [Log (lit "12:00:01") (lit "Filtering 3 activities...") info;
              Connection (lit "12:00:02") 3;
              SetReadyState 1 OPEN;
              Log (lit "12:00:03") (lit "AI started reasoning process...") info]
             (on_close (lit "12:00:00") 1 two_consoles)) 1 =
  inbox two_consoles 1.
Proof.
  refine (proj2 (proj2 (proj2 (proj2 (proj2 broadcast_delivery))
           (lit "12:00:00") 1 two_consoles
           [Log (lit "12:00:01") (lit "Filtering 3 activities...") info;
            Connection (lit "12:00:02") 3;
            SetReadyState 1 OPEN;
            Log (lit "12:00:03") (lit "AI started reasoning process...") info]
           _))).
  intros ts' Hin.
  repeat (apply elem_of_cons in Hin as [Hin|Hin]; [discriminate Hin|]).
  now apply elem_of_nil in Hin.
Defined.

(** * The activity filter *)

Section Filter.

Import Geo.
Local Open Scope float_scope.

(** A price that equals zero, of either sign, compares as [0] does. *)
Lemma zero_leb (x b : float) : (x =? 0) = true -> (0 <=? b) = (x <=? b).
Proof.
  rewrite FloatAxioms.eqb_spec, !FloatAxioms.leb_spec.
  change (Prim2SF 0) with (S754_zero false).
  destruct (Prim2SF x) as [s|s| |s m e]; cbn; try discriminate.
  - intros _. reflexivity.
  - now destruct s.
  - now destruct s.
Qed.

(** For a price that is a number, [price || 0] compares as the price. *)
Lemma price_or_0_leb (x b : float) :
  is_nan x = false -> (price_or_0 (Some x) <=? b) = (x <=? b).
Proof.
  intros Hnan. unfold price_or_0, falsy. rewrite Hnan, orb_false_r.
  destruct (x =? 0) eqn:E; [|reflexivity]. now apply zero_leb.
Qed.

End Filter.

(** C4.  The filter admits a candidate if and only if the haversine
    distance from the hotel, with radius 3959 and the degrees converted to
    radians, is at most [maxDistance] and the price, [0] when it is absent,
    is at most [budget]: both conditions at once.  The Math functions are
    whatever the engine provides; a price is a number (the body of a
    request is JSON, which has no NaN). *)
Theorem geo_filter_admits_iff
    (Math_sin Math_cos Math_sqrt : float -> float)
    (Math_atan2 : float -> float -> float)
    (hotel : Geo.Hotel) (preferences : Geo.Preferences)
    (activity : Geo.Activity) :
  let rad := fun degrees => (degrees * (Geo.Math_PI / 180))%float in
  let dLat := rad (Geo.lat activity - Geo.hotel_lat hotel)%float in
  let dLon := rad (Geo.lng activity - Geo.hotel_lng hotel)%float in
  let a :=
    (Math_sin (dLat / 2) * Math_sin (dLat / 2) +
     Math_cos (rad (Geo.hotel_lat hotel)) * Math_cos (rad (Geo.lat activity)) *
     Math_sin (dLon / 2) * Math_sin (dLon / 2))%float in
  let distance :=
    (3959 * (2 * Math_atan2 (Math_sqrt a) (Math_sqrt (1 - a))))%float in
  let admitted :=
    Geo.admits Math_sin Math_cos Math_sqrt Math_atan2
               hotel preferences activity in
  Geo.calculateDistance Math_sin Math_cos Math_sqrt Math_atan2
    (Geo.hotel_lat hotel) (Geo.hotel_lng hotel)
    (Geo.lat activity) (Geo.lng activity) = distance /\
  (admitted = true <->
   (distance <=? Geo.maxDistance preferences)%float = true /\
   (Geo.price_or_0 (Geo.price activity) <=? Geo.budget preferences)%float
     = true) /\
  (Geo.price activity = None ->
   (admitted = true <->
    (distance <=? Geo.maxDistance preferences)%float = true /\
    (0 <=? Geo.budget preferences)%float = true)) /\
  (forall x : float,
      Geo.price activity = Some x -> is_nan x = false ->
      (admitted = true <->
       (distance <=? Geo.maxDistance preferences)%float = true /\
       (x <=? Geo.budget preferences)%float = true)).
Proof.
  intros rad dLat dLon a distance admitted.
  assert (admitted = true <->
          (distance <=? Geo.maxDistance preferences)%float = true /\
          (Geo.price_or_0 (Geo.price activity) <=? Geo.budget preferences)%float
            = true) as Hiff by apply andb_true_iff.
  split; [reflexivity|]. split; [exact Hiff|]. split.
  - intros Hp. rewrite Hp in Hiff. exact Hiff.
  - intros x Hp Hnan. rewrite Hp, (price_or_0_leb x _ Hnan) in Hiff. exact Hiff.
Qed.

Lemma geo_filter_admits_iff_witness :
  Geo.admits Geo.near_sin Geo.near_cos PrimFloat.sqrt Geo.near_atan2
             Geo.example_hotel Geo.example_preferences Geo.example_activity
  = true.
Proof.
  apply (proj2 (proj2 (proj2
           (geo_filter_admits_iff
              Geo.near_sin Geo.near_cos PrimFloat.sqrt Geo.near_atan2
              Geo.example_hotel Geo.example_preferences Geo.example_activity)))
           10%float eq_refl eq_refl).
  split; reflexivity.
Defined.

(** * More about the streaming loop *)

Section Turns.

Import Trace.

Implicit Types st : StreamState.
Implicit Types content p s u v pre : jsstring.

(** The turn that detects [REASONING:]. *)
Lemma process_chunk_starts st content :
  inReasoning st = false ->
  truthy content = true ->
  includes REASONING (reasoningBuffer st ++ content) = true ->
  process_chunk (Some content) st =
  ({| fullResponse := fullResponse st ++ content;
      reasoningBuffer := [];
      inReasoning := true |},
   [LogToDebug (fst started) (snd started); ResWrite (Chunk content)]).
Proof.
  intros HR HT HI. unfold process_chunk, content_of. rewrite HT.
  unfold seq, append, detect_reasoning, detect_result, log_reasoning, relay.
  cbn [reasoningBuffer inReasoning fullResponse].
  rewrite HI, HR. cbn [negb andb reasoningBuffer inReasoning fullResponse].
  change (includes RESULT []) with false.
  cbn [negb andb reasoningBuffer inReasoning fullResponse].
  destruct (truthy (trim content)); [destruct (_ || _)|]; reflexivity.
Qed.

(** The turn that detects [RESULT:]. *)
Lemma process_chunk_completes st content :
  inReasoning st = true ->
  truthy content = true ->
  includes RESULT (reasoningBuffer st ++ content) = true ->
  process_chunk (Some content) st =
  ({| fullResponse := fullResponse st ++ content;
      reasoningBuffer := [];
      inReasoning := false |},
   [LogToDebug (fst completed) (snd completed); ResWrite (Chunk content)]).
Proof.
  intros HR HT HI. unfold process_chunk, content_of. rewrite HT.
  unfold seq, append, detect_reasoning, detect_result, log_reasoning, relay.
  cbn [reasoningBuffer inReasoning fullResponse].
  rewrite HR. cbn [negb]. rewrite andb_false_r.
  cbn [reasoningBuffer inReasoning fullResponse]. rewrite HI. reflexivity.
Qed.

Lemma split_sentences_from_nonempty prev gap piece s :
  split_sentences_from prev gap piece s <> [].
Proof.
  revert prev gap piece; induction s as [|c s IH]; intros prev gap piece;
    cbn [split_sentences_from]; [discriminate|].
  destruct (is_space c); [|apply IH].
  destruct gap; [apply IH|].
  destruct prev as [t|]; [|apply IH].
  destruct (is_sentence_end t); [discriminate|apply IH].
Qed.

Lemma last_cons_nonempty {A} (x d : A) (l : list A) :
  l <> [] -> List.last (x :: l) d = List.last l d.
Proof. now destruct l. Qed.

Lemma gap_end_cons c pre : is_space c = true -> gap_end pre -> gap_end (c :: pre).
Proof.
  intros Hc [->|(pre' & w & -> & Hw)]; right.
  - now exists [], c.
  - now exists (c :: pre'), w.
Qed.

Lemma gap_end_app u pre : pre <> [] -> gap_end pre -> gap_end (u ++ pre).
Proof.
  intros Hne [->|(pre' & w & -> & Hw)]; [easy|]. right.
  exists (u ++ pre'), w. now rewrite app_assoc.
Qed.

(** The last piece of a sentence split is a suffix of the text, and what
    precedes it is empty or ends with the white space of a separator. *)
Lemma split_sentences_from_last prev gap piece s :
  (gap = true -> piece = []) ->
  exists pre,
    rev piece ++ s = pre ++ List.last (split_sentences_from prev gap piece s) []
    /\ gap_end pre.
Proof.
  revert prev gap piece; induction s as [|c s IH]; intros prev gap piece Hgap;
    cbn [split_sentences_from].
  - exists []. split; [now rewrite app_nil_r|now left].
  - assert (forall prev', exists pre,
               rev piece ++ c :: s =
               pre ++ List.last (split_sentences_from prev' false (c :: piece) s) []
               /\ gap_end pre) as Hkeep.
    { intros prev'. destruct (IH prev' false (c :: piece)) as (pre & E & G);
        [discriminate|].
      exists pre. split; [|exact G]. rewrite <- E. cbn [rev].
      now rewrite <- app_assoc. }
    assert (is_space c = true -> forall prev', exists pre,
               rev piece ++ c :: s =
               pre ++ List.last (split_sentences_from prev' true [] s) []
               /\ gap_end pre) as Hcut.
    { intros Hc prev'. destruct (IH prev' true []) as (pre & E & G); [easy|].
      cbn [rev app] in E. exists (rev piece ++ c :: pre). split.
      - rewrite E at 1. now rewrite <- app_assoc.
      - apply gap_end_app; [discriminate|]. now apply gap_end_cons. }
    destruct (is_space c) eqn:Hc; [|apply Hkeep].
    destruct gap.
    + rewrite (Hgap eq_refl) in *. now apply Hcut.
    + destruct prev as [t|]; [|apply Hkeep].
      destruct (is_sentence_end t); [|apply Hkeep].
      rewrite last_cons_nonempty by apply split_sentences_from_nonempty.
      now apply Hcut.
Qed.

Lemma split_sentences_last s :
  exists pre, s = pre ++ List.last (split_sentences s) [] /\ gap_end pre.
Proof.
  destruct (split_sentences_from_last None false [] s) as (pre & E & G);
    [discriminate|].
  now exists pre.
Qed.

(** If [p] starts a text cut in two, it fits in the first part or the first
    part is a prefix of it. *)
Lemma startsWith_app_cases p u v :
  startsWith p (u ++ v) = true ->
  startsWith p u = true \/ startsWith u p = true.
Proof.
  revert u; induction p as [|a p IH]; intros [|b u]; cbn; auto.
  rewrite andb_true_iff. intros [Hab H]. apply IH in H as [H|H].
  - left. now rewrite Hab.
  - right. apply N.eqb_eq in Hab as ->. now rewrite N.eqb_refl.
Qed.

Lemma startsWith_In u p w : startsWith u p = true -> In w u -> In w p.
Proof.
  revert p; induction u as [|a u IH]; intros [|b p]; cbn; try easy.
  rewrite andb_true_iff. intros [Hab H] [->|Hin].
  - left. symmetry. now apply N.eqb_eq.
  - right. now apply IH.
Qed.

Lemma solid_spec p w : solid p = true -> In w p -> is_space w = false.
Proof.
  unfold solid. rewrite forallb_forall. intros H Hin.
  apply H in Hin. now apply negb_true_iff.
Qed.

(** An occurrence of a marker without white space cannot straddle the end
    of a separator: it lies before it or behind it. *)
Lemma includes_past_gap p pre v :
  solid p = true -> gap_end pre ->
  includes p pre = false ->
  includes p (pre ++ v) = true ->
  includes p v = true.
Proof.
  intros Hp. induction pre as [|c pre IH]; intros G Hpre H; [exact H|].
  cbn [app] in H. rewrite includes_cons in Hpre, H.
  apply orb_false_iff in Hpre as [Hs Hi].
  apply orb_true_iff in H as [H|H].
  - exfalso. apply (startsWith_app_cases p (c :: pre) v) in H as [H|H];
      [congruence|].
    destruct G as [G|(pre' & w & E & Hw)]; [discriminate G|].
    assert (In w (c :: pre)) as Hin by (rewrite E; apply in_or_app; right; now left).
    apply (startsWith_In _ _ _ H) in Hin.
    apply (solid_spec _ _ Hp) in Hin. congruence.
  - apply IH; trivial.
    destruct G as [G|(pre' & w & E & Hw)]; [discriminate G|].
    destruct pre' as [|c' pre'].
    + injection E as -> E. now left.
    + injection E as -> E. right. now exists pre', w.
Qed.

End Turns.

Section Trimming.

Import Trace.

Implicit Types s : jsstring.

Lemma trimStart_head s :
  trimStart s = [] \/ exists c t, trimStart s = c :: t /\ is_space c = false.
Proof.
  induction s as [|c s IH]; [now left|]. cbn.
  destruct (is_space c) eqn:E; [exact IH|]. right. now exists c, s.
Qed.

(** [trim] leaves no white space at either end. *)
Lemma trim_trimmed s : trimmed (trim s) = true.
Proof.
  unfold trim, trimEnd.
  destruct (trimStart_head (rev (trimStart s))) as [->|(d & t & Ey & Hd)];
    [reflexivity|].
  rewrite Ey. cbn [rev].
  destruct (trimStart_suffix (rev (trimStart s))) as [a Ea].
  rewrite Ey in Ea. apply (f_equal (@rev _)) in Ea.
  rewrite rev_involutive, rev_app_distr in Ea. cbn [rev] in Ea.
  destruct (trimStart_head s) as [E0|(c & x & Ex & Hc)].
  - rewrite E0 in Ea. destruct (rev t); discriminate Ea.
  - rewrite Ex in Ea. unfold trimmed.
    destruct (rev t) as [|e r] eqn:Er; cbn [app] in *.
    + injection Ea as -> _. cbn. now rewrite Hc.
    + injection Ea as -> _. rewrite Hc.
      change (e :: r ++ [d]) with ((e :: r) ++ [d]).
      now rewrite last_last, Hd.
Qed.

End Trimming.

Section Invariants.

Import Trace.

Implicit Types st : StreamState.
Implicit Types chunks : list (option jsstring).

(** The shapes of a turn of the loop. *)
Lemma turn_cases chunk st :
  let content := content_of chunk in
  let buffer := reasoningBuffer st ++ content in
  let appended :=
    {| fullResponse := fullResponse st ++ content;
       reasoningBuffer := buffer;
       inReasoning := inReasoning st |} in
  (truthy content = false /\ process_chunk chunk st = (st, [])) \/
  (truthy content = true /\ inReasoning st = false /\
   includes REASONING buffer = false /\
   process_chunk chunk st = (appended, [ResWrite (Chunk content)])) \/
  (truthy content = true /\ inReasoning st = false /\
   includes REASONING buffer = true /\
   process_chunk chunk st =
   ({| fullResponse := fullResponse st ++ content;
       reasoningBuffer := [];
       inReasoning := true |},
    [LogToDebug (fst started) (snd started); ResWrite (Chunk content)])) \/
  (truthy content = true /\ inReasoning st = true /\
   includes RESULT buffer = true /\
   process_chunk chunk st =
   ({| fullResponse := fullResponse st ++ content;
       reasoningBuffer := [];
       inReasoning := false |},
    [LogToDebug (fst completed) (snd completed); ResWrite (Chunk content)])) \/
  (truthy content = true /\ inReasoning st = true /\
   includes RESULT buffer = false /\
   (process_chunk chunk st = (appended, [ResWrite (Chunk content)]) \/
    process_chunk chunk st =
    ({| fullResponse := fullResponse st ++ content;
        reasoningBuffer := List.last (split_sentences buffer) [];
        inReasoning := true |},
     flat_map log_sentence (removelast (split_sentences buffer)) ++
     [ResWrite (Chunk content)]))).
Proof.
  intros content buffer appended.
  assert (process_chunk chunk st = process_chunk (Some content) st) as E
    by reflexivity.
  destruct (truthy content) eqn:HT.
  2:{ left. split; [reflexivity|]. now apply process_chunk_empty. }
  right. destruct (inReasoning st) eqn:HR.
  - right; right. destruct (includes RESULT buffer) eqn:HI.
    + left. repeat split. rewrite E. now apply process_chunk_completes.
    + right. repeat split. rewrite E.
      rewrite process_chunk_reasoning by assumption.
      unfold log_reasoning. cbn [inReasoning reasoningBuffer fullResponse].
      fold buffer. unfold appended.
      destruct (true && truthy (trim content)); [|now left].
      destruct (_ || _); [now right|now left].
  - destruct (includes REASONING buffer) eqn:HI.
    + right; left. repeat split. rewrite E. now apply process_chunk_starts.
    + left. repeat split. rewrite E. unfold appended.
      now apply process_chunk_idle.
Qed.

Lemma log_sentences_notices pieces :
  Forall sentence_notice (notifications (flat_map log_sentence pieces)).
Proof.
  induction pieces as [|piece pieces IH]; [constructor|].
  cbn [flat_map]. rewrite notifications_app. apply Forall_app. split; [|exact IH].
  rewrite log_sentence_threshold.
  destruct (10 <? length (trim piece)) eqn:E; [|constructor].
  repeat constructor. exists piece. split; [reflexivity|].
  split; [now apply Nat.ltb_lt|apply trim_trimmed].
Qed.

Lemma sentence_notice_not_marker n :
  sentence_notice n -> n <> started /\ n <> completed.
Proof.
  intros (piece & -> & _). split; discriminate.
Qed.

Lemma count_app n ns1 ns2 : count n (ns1 ++ ns2) = count n ns1 + count n ns2.
Proof. unfold count. now rewrite List.filter_app, length_app. Qed.

Lemma count_absent n ns : Forall (fun x => x <> n) ns -> count n ns = 0.
Proof.
  unfold count. induction 1 as [|x ns Hx _ IH]; [reflexivity|].
  cbn [List.filter]. now rewrite bool_decide_eq_false_2.
Qed.

Lemma count_log_sentences pieces :
  count started (notifications (flat_map log_sentence pieces)) = 0 /\
  count completed (notifications (flat_map log_sentence pieces)) = 0.
Proof.
  pose proof (log_sentences_notices pieces) as H.
  split; apply count_absent; eapply Forall_impl; try exact H;
    intros n Hn; now apply sentence_notice_not_marker in Hn.
Qed.

Lemma count_In n ns : In n ns <-> 0 < count n ns.
Proof.
  unfold count. induction ns as [|x ns IH]; cbn [List.filter In length].
  - split; [easy|lia].
  - destruct (decide (x = n)) as [->|Hne].
    + rewrite bool_decide_eq_true_2 by reflexivity. cbn. split; [lia|now left].
    + rewrite bool_decide_eq_false_2 by exact Hne. rewrite <- IH.
      split; [now intros [?|?]|now right].
Qed.

End Invariants.

Section Detection.

Import Trace.

Implicit Types st : StreamState.
Implicit Types chunks : list (option jsstring).

Lemma run_stream_preserves (P : StreamState -> Prop) :
  (forall chunk st, P st -> P (fst (process_chunk chunk st))) ->
  forall chunks st, P st -> P (fst (run_stream chunks st)).
Proof.
  intros Hstep chunks. induction chunks as [|chunk chunks IH]; intros st HP;
    [exact HP|].
  rewrite run_stream_cons. specialize (Hstep chunk st HP).
  destruct (process_chunk chunk st) as [st1 e1]. specialize (IH st1 Hstep).
  now destruct (run_stream chunks st1).
Qed.

Lemma process_chunk_suffix chunk st :
  reasoningBuffer st `suffix_of` fullResponse st ->
  reasoningBuffer (fst (process_chunk chunk st)) `suffix_of`
  fullResponse (fst (process_chunk chunk st)).
Proof.
  intros Hs.
  destruct (turn_cases chunk st)
    as [(_ & E)|[(_ & _ & _ & E)|[(_ & _ & _ & E)|[(_ & _ & _ & E)
       |(_ & _ & _ & [E|E])]]]];
    rewrite E; cbn [fst fullResponse reasoningBuffer];
    try exact Hs; try (now apply suffix_app); try apply suffix_nil.
  destruct (split_sentences_last (reasoningBuffer st ++ content_of chunk))
    as (pre & Epre & _).
  transitivity (reasoningBuffer st ++ content_of chunk);
    [|now apply suffix_app].
  exists pre. exact Epre.
Qed.

Lemma text_of_cons chunk chunks :
  text_of (chunk :: chunks) = content_of chunk ++ text_of chunks.
Proof. reflexivity. Qed.

Lemma notifications_cons chunk chunks st :
  notifications (snd (run_stream (chunk :: chunks) st)) =
  notifications (snd (process_chunk chunk st)) ++
  notifications (snd (run_stream chunks (fst (process_chunk chunk st)))).
Proof.
  rewrite run_stream_cons. destruct (process_chunk chunk st) as [st1 e1].
  cbn [fst snd]. destruct (run_stream chunks st1) as [st2 e2].
  apply notifications_app.
Qed.

Lemma state_cons chunk chunks st :
  fst (run_stream (chunk :: chunks) st) =
  fst (run_stream chunks (fst (process_chunk chunk st))).
Proof.
  rewrite run_stream_cons. destruct (process_chunk chunk st) as [st1 e1].
  cbn [fst]. now destruct (run_stream chunks st1).
Qed.

Lemma started_detected chunks st :
  inReasoning st = false ->
  includes REASONING (reasoningBuffer st) = false ->
  includes REASONING (reasoningBuffer st ++ text_of chunks) = true ->
  In started (notifications (snd (run_stream chunks st))).
Proof.
  revert st; induction chunks as [|chunk chunks IH]; intros st HR HB HI.
  - change (text_of []) with (@nil code_unit) in HI.
    rewrite app_nil_r in HI. congruence.
  - rewrite notifications_cons. rewrite text_of_cons, app_assoc in HI.
    apply in_or_app.
    destruct (turn_cases chunk st)
      as [(HT & E)|[(_ & _ & HN & E)|[(_ & _ & _ & E)|[(_ & HR' & _)
         |(_ & HR' & _)]]]];
      try congruence; rewrite E; cbn [fst snd].
    + right. apply IH; trivial.
      apply truthy_false in HT. rewrite HT, app_nil_r in HI. exact HI.
    + right. apply IH; trivial.
    + left. now left.
Qed.

(** X1.  Inside a reasoning section, with no [RESULT:] in the buffer yet,
    the success notification is emitted during a stream whenever the buffer
    followed by the text of the stream contains [RESULT:], however the text
    is cut into fragments: the sentence splitting in between never loses
    the beginning of a marker, since a marker has no white space. *)
Theorem result_marker_detected chunks st :
  inReasoning st = true ->
  includes RESULT (reasoningBuffer st) = false ->
  includes RESULT (reasoningBuffer st ++ text_of chunks) = true ->
  In completed (notifications (snd (run_stream chunks st))).
Proof.
  revert st; induction chunks as [|chunk chunks IH]; intros st HR HB HI.
  - change (text_of []) with (@nil code_unit) in HI.
    rewrite app_nil_r in HI. congruence.
  - rewrite notifications_cons. rewrite text_of_cons, app_assoc in HI.
    apply in_or_app.
    destruct (turn_cases chunk st)
      as [(HT & E)|[(_ & HR' & _)|[(_ & HR' & _)|[(_ & _ & _ & E)
         |(_ & _ & HN & [E|E])]]]];
      try congruence; rewrite E; cbn [fst snd].
    + right. apply IH; trivial.
      apply truthy_false in HT. rewrite HT, app_nil_r in HI. exact HI.
    + left. now left.
    + right. apply IH; trivial.
    + right.
      destruct (split_sentences_last (reasoningBuffer st ++ content_of chunk))
        as (pre & Epre & G).
      set (piece := List.last _ _) in *.
      assert (includes RESULT pre = false) as Hpre
        by (rewrite Epre in HN; now apply includes_app_false_l in HN).
      assert (includes RESULT piece = false) as Hpiece.
      { destruct (includes RESULT piece) eqn:Ep; [|reflexivity].
        rewrite Epre, (includes_app_r RESULT pre piece Ep) in HN.
        discriminate HN. }
      apply IH; cbn [inReasoning reasoningBuffer]; trivial.
      rewrite Epre, <- app_assoc in HI.
      now apply (includes_past_gap RESULT pre).
Qed.

Lemma process_chunk_balance chunk st :
  Nat.b2n (inReasoning st) +
  count started (notifications (snd (process_chunk chunk st))) =
  count completed (notifications (snd (process_chunk chunk st))) +
  Nat.b2n (inReasoning (fst (process_chunk chunk st))).
Proof.
  destruct (turn_cases chunk st)
    as [(_ & E)|[(_ & HR & _ & E)|[(_ & HR & _ & E)|[(_ & HR & _ & E)
       |(_ & HR & _ & [E|E])]]]];
    rewrite E, ?HR; cbn [fst snd inReasoning]; try reflexivity.
  { change (notifications []) with (@nil (jsstring * Level)).
    unfold count; cbn. lia. }
  rewrite notifications_app, !count_app.
  destruct (count_log_sentences
              (removelast (split_sentences
                             (reasoningBuffer st ++ content_of chunk))))
    as [-> ->].
  reflexivity.
Qed.

Lemma process_chunk_notices chunk st :
  Forall (fun n => n = started \/ n = completed \/ sentence_notice n)
         (notifications (snd (process_chunk chunk st))).
Proof.
  destruct (turn_cases chunk st)
    as [(_ & E)|[(_ & _ & _ & E)|[(_ & _ & _ & E)|[(_ & _ & _ & E)
       |(_ & _ & _ & [E|E])]]]];
    rewrite E; cbn [snd]; try (now constructor).
  - constructor; [now left|constructor].
  - constructor; [right; now left|constructor].
  - rewrite notifications_app. apply Forall_app. split; [|constructor].
    eapply Forall_impl; [apply log_sentences_notices|]. intros n Hn; tauto.
Qed.

Lemma process_chunk_completed_marker chunk st :
  reasoningBuffer st `suffix_of` fullResponse st ->
  In completed (notifications (snd (process_chunk chunk st))) ->
  includes RESULT (fullResponse (fst (process_chunk chunk st))) = true.
Proof.
  intros [k Hk].
  destruct (turn_cases chunk st)
    as [(_ & E)|[(_ & _ & _ & E)|[(_ & _ & _ & E)|[(_ & _ & HI & E)
       |(_ & _ & _ & [E|E])]]]];
    rewrite E; cbn [fst snd fullResponse].
  - intros [].
  - intros [].
  - intros [H|[]]. discriminate H.
  - intros _. rewrite Hk, <- app_assoc. now apply includes_app_r.
  - intros [].
  - rewrite notifications_app. intros Hin. exfalso.
    apply in_app_or in Hin as [Hin|[]].
    pose proof (log_sentences_notices
                  (removelast (split_sentences
                                 (reasoningBuffer st ++ content_of chunk)))) as HF.
    rewrite List.Forall_forall in HF. apply HF in Hin.
    now apply sentence_notice_not_marker in Hin.
Qed.

Lemma run_stream_notices chunks st :
  Forall (fun n => n = started \/ n = completed \/ sentence_notice n)
         (notifications (snd (run_stream chunks st))).
Proof.
  revert st; induction chunks as [|chunk chunks IH]; intros st;
    [constructor|].
  rewrite notifications_cons. apply Forall_app. split; [|apply IH].
  apply process_chunk_notices.
Qed.

End Detection.

(** X2.  The pending buffer is always a suffix of the accumulated text:
    if it is one before a stream of fragments, it is one after it,
    whatever the loop detected, cleared or split on the way. *)
Theorem buffer_suffix_of_text (chunks : list (option jsstring))
    (st : StreamState) :
  reasoningBuffer st `suffix_of` fullResponse st ->
  reasoningBuffer (fst (run_stream chunks st)) `suffix_of`
  fullResponse (fst (run_stream chunks st)).
Proof.
  apply (run_stream_preserves
           (fun s => reasoningBuffer s `suffix_of` fullResponse s)).
  exact process_chunk_suffix.
Qed.

Lemma buffer_suffix_of_text_witness :
  reasoningBuffer
    (fst (run_stream [Some (lit "REASONING: one."); Some (lit " two and th")]
                     initial)) `suffix_of`
  fullResponse
    (fst (run_stream [Some (lit "REASONING: one."); Some (lit " two and th")]
                     initial)).
Proof.
  apply (buffer_suffix_of_text
           [Some (lit "REASONING: one."); Some (lit " two and th")] initial).
  now exists [].
Defined.

(** X3.  Outside of a reasoning section, with no [REASONING:] in the
    buffer yet, the start notification is emitted during a stream if and
    only if the buffer followed by the text of the stream contains
    [REASONING:], however the text is cut into fragments: a marker split
    across fragments is detected, and nothing else triggers it. *)
Theorem reasoning_marker_detected (chunks : list (option jsstring))
    (st : StreamState) :
  inReasoning st = false ->
  includes REASONING (reasoningBuffer st) = false ->
  (In started (notifications (snd (run_stream chunks st))) <->
   includes REASONING (reasoningBuffer st ++ text_of chunks) = true).
Proof.
  intros HR HB. split.
  - intros Hin.
    destruct (includes REASONING (reasoningBuffer st ++ text_of chunks)) eqn:E;
      [reflexivity|].
    destruct (run_stream_idle chunks st HR E) as [Hn _].
    rewrite Hn in Hin. destruct Hin.
  - now apply started_detected.
Qed.

Lemma reasoning_marker_detected_witness :
  In started
     (notifications
        (snd (run_stream [Some (lit "Sure. REA"); None; Some (lit "SO");
                          Some (lit "NING: first")] initial))).
Proof.
  apply (proj2 (reasoning_marker_detected
                  [Some (lit "Sure. REA"); None; Some (lit "SO");
                   Some (lit "NING: first")] initial eq_refl eq_refl)).
  reflexivity.
Defined.

Lemma result_marker_detected_witness :
  In completed
     (notifications
        (snd (run_stream [Some (lit " It is near. R"); Some (lit "ESU");
                          Some (lit "LT: [1]")] reasoning_started))).
Proof.
  apply (result_marker_detected
           [Some (lit " It is near. R"); Some (lit "ESU"); Some (lit "LT: [1]")]
           reasoning_started eq_refl eq_refl eq_refl).
Defined.

(** X4.  Start and success notifications balance with the flag: over any
    stream, the starts plus one if the loop began inside a reasoning
    section equal the successes plus one if it ends inside one.  From the
    initial state there are never more successes than starts and at most
    one start more, exactly when the stream ends inside a reasoning
    section. *)
Theorem marker_balance (chunks : list (option jsstring)) (st : StreamState) :
  (Nat.b2n (inReasoning st) +
   Trace.count started (notifications (snd (run_stream chunks st))) =
   Trace.count completed (notifications (snd (run_stream chunks st))) +
   Nat.b2n (inReasoning (fst (run_stream chunks st)))) /\
  (Trace.count started (notifications (snd (run_stream chunks initial))) =
   Trace.count completed (notifications (snd (run_stream chunks initial))) +
   Nat.b2n (inReasoning (fst (run_stream chunks initial)))).
Proof.
  assert (forall st0,
             Nat.b2n (inReasoning st0) +
             Trace.count started (notifications (snd (run_stream chunks st0))) =
             Trace.count completed (notifications (snd (run_stream chunks st0))) +
             Nat.b2n (inReasoning (fst (run_stream chunks st0)))) as H.
  { induction chunks as [|chunk chunks IH]; intros st0.
    - cbn. lia.
    - rewrite notifications_cons, state_cons, !count_app.
      pose proof (process_chunk_balance chunk st0) as H1.
      specialize (IH (fst (process_chunk chunk st0))). lia. }
  split; [apply H|]. exact (H initial).
Qed.

(** X5.  Every notification of the loop is the start notification, the
    success notification, or ["AI: "] followed by a trimmed sentence of
    more than 10 code units with no white space at either end; none has
    severity error. *)
Theorem notification_kinds (chunks : list (option jsstring))
    (st : StreamState) :
  Forall (fun n => n = started \/ n = completed \/ Trace.sentence_notice n)
         (notifications (snd (run_stream chunks st))) /\
  (forall m, ~ In (m, error) (notifications (snd (run_stream chunks st)))).
Proof.
  split; [apply run_stream_notices|]. intros m Hin.
  pose proof (run_stream_notices chunks st) as H.
  rewrite List.Forall_forall in H. apply H in Hin.
  destruct Hin as [Hin|[Hin|(piece & Hin & _)]]; discriminate Hin.
Qed.

(** X6.  If the pending buffer is a suffix of the accumulated text and the
    success notification is emitted during a stream, the accumulated text
    at the end contains [RESULT:], so the extraction takes the marker
    branch and the done event carries the trimmed piece behind the marker,
    not the raw text. *)
Theorem success_implies_marker (chunks : list (option jsstring))
    (st : StreamState) (elapsed : jsstring) :
  reasoningBuffer st `suffix_of` fullResponse st ->
  In completed (notifications (snd (run_stream chunks st))) ->
  includes RESULT (fullResponse (fst (run_stream chunks st))) = true /\
  In (ResWrite
        (Done (trim (nth 1 (split RESULT
                              (fullResponse (fst (run_stream chunks st))))
                         []))))
     (finish elapsed (fst (run_stream chunks st))).
Proof.
  intros Hs Hin.
  assert (includes RESULT (fullResponse (fst (run_stream chunks st))) = true)
    as HI.
  { revert st Hs Hin; induction chunks as [|chunk chunks IH]; intros st Hs Hin;
      [destruct Hin|].
    rewrite notifications_cons in Hin. rewrite state_cons.
    apply in_app_or in Hin as [Hin|Hin].
    - rewrite run_stream_fullResponse. apply includes_app_l.
      now apply process_chunk_completed_marker.
    - apply IH; [|exact Hin]. now apply process_chunk_suffix. }
  split; [exact HI|].
  unfold finish, extract. rewrite HI. cbn [resultText reasoningText].
  apply in_or_app. right. apply in_or_app. right. now left.
Qed.

Lemma success_implies_marker_witness :
  includes RESULT
    (fullResponse
       (fst (run_stream [Some (lit "REASONING:"); Some (lit " ok. RESULT: [1]")]
                        initial))) = true.
Proof.
  refine (proj1 (success_implies_marker
                   [Some (lit "REASONING:"); Some (lit " ok. RESULT: [1]")]
                   initial (lit "7") _ _)).
  - now exists [].
  - right. now left.
Defined.

(** * More about the extraction and the end of the handler *)

Section Ending.

Import Trace Handler.

Implicit Types text a b c : jsstring.

(** X7.  When the text contains [RESULT:] more than once, the result is
    the trimmed text between the first two occurrences: everything from the
    second marker on is dropped. *)
Theorem extract_between_markers a b c :
  includes RESULT a = false ->
  includes RESULT b = false ->
  extract (a ++ RESULT ++ b ++ RESULT ++ c) =
  {| resultText := trim b;
     reasoningText := trim (replace REASONING [] a) |}.
Proof.
  intros Ha Hb.
  rewrite (extract_marked _ _ (indexOf_RESULT_app a (b ++ RESULT ++ c) Ha)).
  cbn zeta. rewrite take_app_length, drop_app_add, drop_app_length.
  now rewrite (indexOf_RESULT_app b c Hb), take_app_length.
Qed.

(** The extracted result is a contiguous part of the text. *)
Lemma extract_result_substring text :
  exists a b, text = a ++ resultText (extract text) ++ b.
Proof.
  destruct (includes RESULT text) eqn:HI.
  - apply includes_indexOf in HI as [i Ei].
    rewrite (extract_marked _ _ Ei). cbn zeta. cbn [resultText].
    set (rest := drop (i + length RESULT) text).
    pose proof (indexOf_split _ _ _ Ei) as Et. fold rest in Et.
    destruct (indexOf RESULT rest) as [j|] eqn:Ej.
    + destruct (trim_substring (take j rest)) as (a' & b' & E').
      exists (take i text ++ RESULT ++ a'), (b' ++ drop j rest).
      rewrite Et at 1. rewrite <- (take_drop j rest) at 1. rewrite E' at 1.
      now rewrite <- !app_assoc.
    + destruct (trim_substring rest) as (a' & b' & E').
      exists (take i text ++ RESULT ++ a'), b'.
      rewrite Et at 1. rewrite E' at 1. now rewrite <- !app_assoc.
  - rewrite extract_unmarked by exact HI. exists [], [].
    cbn. now rewrite app_nil_r.
Qed.

Lemma written_app acts1 acts2 :
  written (acts1 ++ acts2) = written acts1 ++ written acts2.
Proof. unfold written. apply flat_map_app. Qed.

Lemma forallb_loop_effect_app es1 es2 :
  forallb loop_effect (es1 ++ es2) =
  forallb loop_effect es1 && forallb loop_effect es2.
Proof. apply forallb_app. Qed.

Lemma log_sentences_loop_effect pieces :
  forallb loop_effect (flat_map log_sentence pieces) = true.
Proof.
  induction pieces as [|piece pieces IH]; [reflexivity|].
  cbn [flat_map]. rewrite forallb_loop_effect_app, IH, andb_true_r.
  unfold log_sentence. now destruct (_ && _).
Qed.

Lemma process_chunk_loop_effect chunk st :
  forallb loop_effect (snd (process_chunk chunk st)) = true.
Proof.
  destruct (turn_cases chunk st)
    as [(_ & E)|[(_ & _ & _ & E)|[(_ & _ & _ & E)|[(_ & _ & _ & E)
       |(_ & _ & _ & [E|E])]]]];
    rewrite E; cbn [snd]; try reflexivity.
  now rewrite forallb_loop_effect_app, log_sentences_loop_effect.
Qed.

Lemma run_stream_loop_effect chunks st :
  forallb loop_effect (snd (run_stream chunks st)) = true.
Proof.
  revert st; induction chunks as [|chunk chunks IH]; intros st; [reflexivity|].
  rewrite run_stream_cons.
  pose proof (process_chunk_loop_effect chunk st) as H1.
  destruct (process_chunk chunk st) as [st1 e1]. specialize (IH st1).
  destruct (run_stream chunks st1) as [st2 e2]. cbn [snd] in *.
  now rewrite forallb_loop_effect_app, H1, IH.
Qed.

Lemma written_loop es :
  forallb loop_effect es = true ->
  written (List.map Act es) = List.map Chunk (relayed es) /\
  ~ In (Act ResEnd) (List.map Act es) /\
  (forall m, ~ In (Status500Json m) (List.map Act es)).
Proof.
  induction es as [|e es IH]; [now repeat split|].
  cbn [forallb]. rewrite andb_true_iff. intros [He Hes].
  destruct (IH Hes) as (IH1 & IH2 & IH3).
  destruct e as [m l|[c|r]|]; try discriminate He; cbn;
    (split; [first [exact IH1|f_equal; exact IH1]|]);
    (split; [|intros m0]);
    intros [H|H]; try discriminate H; try (now apply IH2);
    now apply (IH3 m0).
Qed.

End Ending.

Lemma extract_between_markers_witness :
  extract (lit "REASONING: pick two. RESULT: [1,2] RESULT: [3]") =
  {| resultText := lit "[1,2]"; reasoningText := lit "pick two." |}.
Proof.
  exact (extract_between_markers
           (lit "REASONING: pick two. ") (lit " [1,2] ") (lit " [3]")
           eq_refl eq_refl).
Defined.

(** X8.  The extracted result is always a contiguous part of the
    accumulated text, and when the text contains [RESULT:] neither the
    result nor the reasoning starts or ends with white space. *)
Theorem extracted_parts (text : jsstring) :
  (exists a b, text = a ++ resultText (extract text) ++ b) /\
  (includes RESULT text = true ->
   Trace.trimmed (resultText (extract text)) = true /\
   Trace.trimmed (reasoningText (extract text)) = true).
Proof.
  split; [apply extract_result_substring|].
  intros HI. unfold extract. rewrite HI. cbn [resultText reasoningText].
  split; apply trim_trimmed.
Qed.

Lemma extracted_parts_witness :
  Trace.trimmed
    (resultText (extract (lit "REASONING: a. RESULT:   [1, 2]  "))) = true.
Proof.
  exact (proj1 (proj2 (extracted_parts (lit "REASONING: a. RESULT:   [1, 2]  "))
                      eq_refl)).
Defined.

(** X9.  After the loop every notification has severity success, and the
    reasoning summary, emitted only when the text contains [RESULT:] and
    the trimmed reasoning is not empty, carries at most the first 200 code
    units of the reasoning: it is never longer than 225 code units. *)
Theorem reasoning_summary_bounded (elapsed : jsstring) (st : StreamState) :
  Forall
    (fun n : jsstring * Level =>
       snd n = success /\
       (fst n = lit "OpenAI response complete (" ++ elapsed ++ lit "ms)" \/
        fst n = lit "Itinerary generated successfully" \/
        (fst n = lit "AI reasoning summary: " ++
                 take 200 (reasoningText (extract (fullResponse st))) ++
                 lit "..." /\
         length (fst n) <= 225 /\
         reasoningText (extract (fullResponse st)) <> [] /\
         includes RESULT (fullResponse st) = true)))
    (notifications (finish elapsed st)).
Proof.
  unfold finish.
  destruct (truthy (reasoningText (extract (fullResponse st)))) eqn:HT.
  - cbn [notifications flat_map app].
    constructor; [split; [reflexivity|now left]|].
    constructor; [split; [reflexivity|]|].
    + right; right. cbn [fst]. split; [reflexivity|]. split; [|split].
      * unfold substring0. rewrite !length_app, length_take.
        change (length (lit "AI reasoning summary: ")) with 22.
        change (length (lit "...")) with 3. lia.
      * intros E. now rewrite E in HT.
      * destruct (includes RESULT (fullResponse st)) eqn:HI; [reflexivity|].
        now rewrite (extract_unmarked _ HI) in HT.
    + constructor; [split; [reflexivity|right; now left]|constructor].
  - cbn [notifications flat_map app].
    constructor; [split; [reflexivity|now left]|].
    constructor; [split; [reflexivity|right; now left]|constructor].
Qed.

(** X10.  When the generator completes, the events written to the
    response are one chunk event for each non-empty fragment, in order,
    followed by exactly one done event that carries the result extracted
    from the concatenation of the fragments; the handler then ends the
    response and logs its success, and never answers with an error. *)
Theorem handler_success
    (Math_sin Math_cos Math_sqrt : float -> float)
    (Math_atan2 : float -> float -> float)
    (Number_toString : float -> jsstring)
    (req : Handler.Request) (chunks : list (option jsstring))
    (elapsed : jsstring) :
  let acts :=
    Handler.generate_itinerary Math_sin Math_cos Math_sqrt Math_atan2
      Number_toString req
      {| Handler.chunks := chunks; Handler.failure := None |} elapsed in
  Handler.written acts =
    List.map Chunk (List.filter truthy (List.map content_of chunks)) ++
    [Done (resultText (extract (text_of chunks)))] /\
  (exists before,
      acts = before ++
             [Handler.Act (ResWrite (Done (resultText (extract (text_of chunks)))));
              Handler.Act ResEnd;
              Handler.Act
                (LogToDebug (lit "Itinerary generated successfully") success)]) /\
  (forall m, ~ In (Handler.Status500Json m) acts).
Proof.
  intros acts. unfold acts, Handler.generate_itinerary.
  cbn [Handler.chunks Handler.failure].
  pose proof (run_stream_fullResponse chunks initial) as HF.
  pose proof (run_stream_relays chunks initial) as HR.
  pose proof (run_stream_loop_effect chunks initial) as HL.
  destruct (run_stream chunks initial) as [st es]. cbn [fst snd] in *.
  cbn [fullResponse initial app] in HF.
  destruct (written_loop es HL) as (HW & _ & HS).
  unfold finish. rewrite HF.
  set (r := extract (text_of chunks)).
  split; [|split].
  - rewrite !written_app, HW, HR.
    now destruct (truthy (reasoningText r)).
  - match goal with
    | |- context [List.map Handler.Act (?A ++ ?B ++ ?C)] =>
        exists (Handler.before_stream Math_sin Math_cos Math_sqrt Math_atan2
                  Number_toString req ++
                List.map Handler.Act es ++ List.map Handler.Act (A ++ B));
        rewrite (List.app_assoc A B C), (List.map_app Handler.Act (A ++ B) C)
    end.
    now rewrite <- !List.app_assoc.
  - intros m Hin. apply in_app_or in Hin as [Hin|Hin].
    + cbn in Hin. repeat (destruct Hin as [Hin|Hin]; try discriminate Hin).
      exact Hin.
    + apply in_app_or in Hin as [Hin|Hin]; [now apply (HS m)|].
      apply in_map_iff in Hin as (e & He & _). discriminate He.
Qed.

(** X11.  When the generator throws, with message [m], after delivering
    some fragments, the chunk events of these fragments have been written
    and nothing else is: no done event, and the response is not ended.  The
    last two things the handler does are to log ["Error: " + m] with
    severity error and to call [res.status(500).json] with [m]. *)
Theorem handler_failure
    (Math_sin Math_cos Math_sqrt : float -> float)
    (Math_atan2 : float -> float -> float)
    (Number_toString : float -> jsstring)
    (req : Handler.Request) (chunks : list (option jsstring))
    (message elapsed : jsstring) :
  let acts :=
    Handler.generate_itinerary Math_sin Math_cos Math_sqrt Math_atan2
      Number_toString req
      {| Handler.chunks := chunks; Handler.failure := Some message |}
      elapsed in
  Handler.written acts =
    List.map Chunk (List.filter truthy (List.map content_of chunks)) /\
  (forall r, ~ In (Handler.Act (ResWrite (Done r))) acts) /\
  ~ In (Handler.Act ResEnd) acts /\
  (exists before,
      acts = before ++
             [Handler.Act (LogToDebug (lit "Error: " ++ message) error);
              Handler.Status500Json message]).
Proof.
  intros acts. unfold acts, Handler.generate_itinerary.
  cbn [Handler.chunks Handler.failure].
  pose proof (run_stream_relays chunks initial) as HR.
  pose proof (run_stream_loop_effect chunks initial) as HL.
  destruct (run_stream chunks initial) as [st es]. cbn [fst snd] in *.
  destruct (written_loop es HL) as (HW & HE & _).
  assert (Handler.written
            (Handler.before_stream Math_sin Math_cos Math_sqrt Math_atan2
               Number_toString req ++
             List.map Handler.Act es ++ Handler.on_error message) =
          List.map Chunk (List.filter truthy (List.map content_of chunks)))
    as HWr.
  { rewrite !written_app, HW, HR. cbn. now rewrite app_nil_r. }
  split; [exact HWr|]. split; [|split].
  - intros r Hin.
    assert (In (Done r)
               (List.map Chunk (List.filter truthy (List.map content_of chunks))))
      as HD.
    { rewrite <- HWr. unfold Handler.written. apply in_flat_map.
      exists (Handler.Act (ResWrite (Done r))). split; [exact Hin|now left]. }
    apply in_map_iff in HD as (c & Hc & _). discriminate Hc.
  - intros Hin. apply in_app_or in Hin as [Hin|Hin].
    + cbn in Hin. repeat (destruct Hin as [Hin|Hin]; try discriminate Hin).
      exact Hin.
    + apply in_app_or in Hin as [Hin|Hin]; [now apply HE|].
      cbn in Hin. repeat (destruct Hin as [Hin|Hin]; try discriminate Hin).
      exact Hin.
  - eexists. unfold Handler.on_error. rewrite !app_assoc. reflexivity.
Qed.

(** * More about the event fan-out *)

Section Consoles.

Import FanOut Trace.

Implicit Types srv : Server.
Implicit Types evs : list Event.

Lemma run_cons ev evs srv : run (ev :: evs) srv = run evs (handle ev srv).
Proof. reflexivity. Qed.

Lemma ready_logToDebug ts m lvl srv (x : nat) :
  ready (logToDebug ts m lvl srv) x = ready srv x.
Proof.
  unfold ready. rewrite logToDebug_lookup.
  destruct (decide (x ∈ debugClients srv)); [|reflexivity].
  destruct (sockets srv !! x) as [ws|]; [|reflexivity].
  unfold received. destruct (readyState ws =? OPEN) eqn:E; cbn; now rewrite E.
Qed.

(** What an event does to the inbox of a socket: nothing, or the record it
    broadcasts at the end. *)
Lemma handle_inbox ev srv (x : nat) :
  inbox (handle ev srv) x = inbox srv x \/
  inbox (handle ev srv) x = inbox srv x ++ logs_of ev.
Proof.
  destruct ev as [ts y|ts y|ts m lvl|y state]; cbn [handle logs_of].
  - unfold on_connection. rewrite logToDebug_inbox.
    change (inbox (add y srv) x) with (inbox srv x).
    destruct (_ && _); [now right|now left].
  - unfold on_close. rewrite logToDebug_inbox.
    change (inbox (FanOut.delete y srv) x) with (inbox srv x).
    destruct (_ && _); [now right|now left].
  - rewrite logToDebug_inbox. destruct (_ && _); [now right|now left].
  - left. apply set_readyState_inbox.
Qed.

(** X12.  Over any sequence of connections, closes, broadcasts and state
    changes, what a socket has been sent only grows: its inbox afterwards
    is its inbox before followed by some of the records broadcast in the
    meantime, in the order of their broadcast.  Nothing is taken back,
    reordered, or sent that was not broadcast. *)
Theorem inbox_grows evs srv (x : nat) :
  exists more,
    inbox (run evs srv) x = inbox srv x ++ more /\
    more `sublist_of` concat (List.map logs_of evs).
Proof.
  revert srv; induction evs as [|ev evs IH]; intros srv.
  - exists []. split; [now rewrite app_nil_r|constructor].
  - rewrite run_cons. destruct (IH (handle ev srv)) as (more & E & Hsub).
    cbn [List.map concat].
    destruct (handle_inbox ev srv x) as [H|H]; rewrite H in E.
    + exists more. split; [exact E|]. now apply sublist_inserts_l.
    + exists (logs_of ev ++ more). split; [now rewrite app_assoc|].
      now apply sublist_app.
Qed.

(** An event that is not about [x] changes neither its subscription nor
    its readiness, and sends it the record of the event exactly when it is
    subscribed and open. *)
Lemma handle_other ev srv (x : nat) :
  touches x ev = false ->
  (x ∈ debugClients (handle ev srv) <-> x ∈ debugClients srv) /\
  ready (handle ev srv) x = ready srv x /\
  inbox (handle ev srv) x =
    if bool_decide (x ∈ debugClients srv) && ready srv x
    then inbox srv x ++ logs_of ev
    else inbox srv x.
Proof.
  destruct ev as [ts y|ts y|ts m lvl|y state]; cbn [touches handle logs_of];
    intros Hx; try apply bool_decide_eq_false in Hx.
  - unfold on_connection. rewrite ready_logToDebug, logToDebug_inbox.
    change (ready (add y srv) x) with (ready srv x).
    change (inbox (add y srv) x) with (inbox srv x).
    assert (x ∈ debugClients (add y srv) <-> x ∈ debugClients srv) as Hm.
    { unfold add; cbn [debugClients].
      rewrite elem_of_union, elem_of_singleton. split; [|tauto].
      intros [->|?]; [now contradiction Hx|assumption]. }
    split; [exact Hm|]. split; [reflexivity|].
    now rewrite (bool_decide_ext _ _ Hm).
  - unfold on_close. rewrite ready_logToDebug, logToDebug_inbox.
    change (ready (FanOut.delete y srv) x) with (ready srv x).
    change (inbox (FanOut.delete y srv) x) with (inbox srv x).
    assert (x ∈ debugClients (FanOut.delete y srv) <-> x ∈ debugClients srv)
      as Hm.
    { unfold FanOut.delete; cbn [debugClients].
      rewrite elem_of_difference, elem_of_singleton. split; [tauto|].
      intros ?. split; [assumption|]. intros ->. now contradiction Hx. }
    split; [exact Hm|]. split; [reflexivity|].
    now rewrite (bool_decide_ext _ _ Hm).
  - rewrite ready_logToDebug, logToDebug_inbox. now repeat split.
  - split; [reflexivity|]. split.
    + unfold ready, set_readyState. cbn [sockets].
      destruct (sockets srv !! y) as [s|] eqn:Hy; [|reflexivity].
      rewrite lookup_insert_ne by exact Hx. reflexivity.
    + rewrite set_readyState_inbox, app_nil_r. now destruct (_ && _).
Qed.

(** X13.  Over events that are not about a socket itself (not its own
    connection, close or change of state), a socket that is subscribed and
    open receives the record of every one of them, in order, the notices of
    the other consoles included; a socket that is not subscribed or not
    open receives none. *)
Theorem bystander_inbox evs srv (x : nat) :
  forallb (fun ev => negb (touches x ev)) evs = true ->
  inbox (run evs srv) x =
    if bool_decide (x ∈ debugClients srv) && ready srv x
    then inbox srv x ++ concat (List.map logs_of evs)
    else inbox srv x.
Proof.
  revert srv; induction evs as [|ev evs IH]; intros srv Hevs.
  - cbn. rewrite app_nil_r. now destruct (_ && _).
  - cbn [forallb] in Hevs. apply andb_true_iff in Hevs as [Hev Hevs].
    apply negb_true_iff in Hev.
    destruct (handle_other ev srv x Hev) as (Hm & Hr & Hi).
    rewrite run_cons, (IH _ Hevs), Hr, (bool_decide_ext _ _ Hm), Hi.
    cbn [List.map concat].
    destruct (_ && _); [now rewrite app_assoc|reflexivity].
Qed.

Lemma handle_console ev srv :
  console (handle ev srv) = console srv ++ List.map line_of (logs_of ev).
Proof.
  destruct ev as [ts y|ts y|ts m lvl|y state]; cbn; try reflexivity.
  now rewrite app_nil_r.
Qed.

(** X14.  Every broadcast is also printed on the server's console,
    whoever is subscribed: after any sequence of events the console holds
    the lines it held before followed by one line ["[" timestamp "] "
    message] for each record broadcast, in order. *)
Theorem console_mirrors_broadcasts evs srv :
  console (run evs srv) =
  console srv ++ List.map line_of (concat (List.map logs_of evs)).
Proof.
  revert srv; induction evs as [|ev evs IH]; intros srv.
  - cbn. now rewrite app_nil_r.
  - rewrite run_cons, IH, handle_console. cbn [List.map concat].
    now rewrite List.map_app, app_assoc.
Qed.

End Consoles.

Lemma bystander_inbox_witness :
  inbox (run [Log (lit "12:00:01") (lit "Filtering 3 activities...") info;
              Connection (lit "12:00:02") 3;
              Close (lit "12:00:03") 2]
             two_consoles) 1 =
  [Trace.record_of (lit "12:00:01") (lit "Filtering 3 activities...") info;
   Trace.record_of (lit "12:00:02") (lit "Debug console connected") success;
   Trace.record_of (lit "12:00:03") (lit "Debug console disconnected") info].
Proof.
  exact (bystander_inbox
           [Log (lit "12:00:01") (lit "Filtering 3 activities...") info;
            Connection (lit "12:00:02") 3;
            Close (lit "12:00:03") 2]
           two_consoles 1 eq_refl).
Defined.

(** X15.  A console that connects while its socket is open is sent the
    notice of its own connection, since it is subscribed before the notice
    is broadcast.  Connecting the same socket again leaves the set of
    subscribers as it is and sends it the second notice once, not twice. *)
Theorem connection_notice (ts ts' : jsstring) (x : nat) (srv : Server) :
  ready srv x = true ->
  (x ∈ debugClients (on_connection ts x srv)) /\
  inbox (on_connection ts x srv) x =
    inbox srv x ++
    [Trace.record_of ts (lit "Debug console connected") success] /\
  debugClients (on_connection ts' x (on_connection ts x srv)) =
    debugClients (on_connection ts x srv) /\
  inbox (on_connection ts' x (on_connection ts x srv)) x =
    inbox srv x ++
    [Trace.record_of ts (lit "Debug console connected") success;
     Trace.record_of ts' (lit "Debug console connected") success].
Proof.
  intros Hready.
  assert (forall t s, x ∈ debugClients (on_connection t x s)) as Hin.
  { intros t s. unfold on_connection, logToDebug, add. cbn [debugClients].
    apply elem_of_union. left. now apply elem_of_singleton. }
  assert (forall t s, ready s x = true ->
                      inbox (on_connection t x s) x =
                      inbox s x ++
                      [Trace.record_of t (lit "Debug console connected") success])
    as Hone.
  { intros t s Hr. unfold on_connection. rewrite logToDebug_inbox.
    change (ready (add x s) x) with (ready s x). rewrite Hr.
    rewrite bool_decide_eq_true_2; [reflexivity|].
    unfold add. cbn [debugClients].
    apply elem_of_union. left. now apply elem_of_singleton. }
  split; [apply Hin|]. split; [now apply Hone|]. split.
  - unfold on_connection, logToDebug, add. cbn [debugClients].
    rewrite (assoc_L (∪)). now rewrite union_idemp_L.
  - rewrite Hone, Hone; trivial.
    + now rewrite <- app_assoc.
    + unfold on_connection. now rewrite ready_logToDebug.
Qed.

Lemma connection_notice_witness :
  inbox (on_connection (lit "12:00:05") 1
           (on_connection (lit "12:00:04") 1 two_consoles)) 1 =
  [Trace.record_of (lit "12:00:04") (lit "Debug console connected") success;
   Trace.record_of (lit "12:00:05") (lit "Debug console connected") success].
Proof.
  exact (proj2 (proj2 (proj2
           (connection_notice (lit "12:00:04") (lit "12:00:05") 1
                              two_consoles eq_refl)))).
Defined.

(** * More about the activity filter *)

Section Thresholds.

Import Geo.
Local Open Scope float_scope.

(** The comparison of doubles is transitive. *)
Lemma SFleb_trans x y z :
  SFleb x y = true -> SFleb y z = true -> SFleb x z = true.
Proof.
  unfold SFleb.
  destruct x as [sx|sx| |sx mx ex], y as [sy|sy| |sy my ey],
           z as [sz|sz| |sz mz ez];
    cbn; try discriminate; try reflexivity;
    try (destruct sx); try (destruct sy); try (destruct sz); cbn;
    try discriminate; try reflexivity; try (intros; assumption).
  all: destruct (Z.compare_spec ex ey), (Z.compare_spec ey ez),
         (Z.compare_spec ex ez); try lia; subst; cbn;
       try discriminate; try reflexivity;
       repeat match goal with
              | |- context [PosDef.Pos.compare_cont Eq ?a ?b] =>
                  change (PosDef.Pos.compare_cont Eq a b)
                    with (a ?= b)%positive;
                  destruct (Pos.compare_spec a b)
              end; cbn; try discriminate; try reflexivity; intros; lia.
Qed.

Lemma leb_trans (x y z : float) :
  (x <=? y) = true -> (y <=? z) = true -> (x <=? z) = true.
Proof. rewrite !FloatAxioms.leb_spec. apply SFleb_trans. Qed.

Lemma SFcompare_refl x : x <> S754_nan -> SFcompare x x = Some Eq.
Proof.
  destruct x as [s|s| |s m e]; cbn; try easy.
  - now destruct s.
  - intros _. rewrite Z.compare_refl.
    change (PosDef.Pos.compare_cont Eq m m) with (m ?= m)%positive.
    rewrite Pos.compare_refl. now destruct s.
Qed.

Lemma is_nan_spec (x : float) : is_nan x = true -> Prim2SF x = S754_nan.
Proof.
  unfold is_nan. rewrite FloatAxioms.eqb_spec, negb_true_iff. unfold SFeqb.
  destruct (Prim2SF x) eqn:E; try reflexivity;
    rewrite SFcompare_refl; discriminate.
Qed.

(** A comparison with NaN is false. *)
Lemma leb_nan_r (x b : float) : is_nan b = true -> (x <=? b) = false.
Proof.
  intros H. rewrite FloatAxioms.leb_spec, (is_nan_spec _ H).
  unfold SFleb. now destruct (Prim2SF x).
Qed.

Lemma leb_nan_l (x b : float) : is_nan x = true -> (x <=? b) = false.
Proof.
  intros H. now rewrite FloatAxioms.leb_spec, (is_nan_spec _ H).
Qed.

Lemma filter_filter_weaker {A} (f g : A -> bool) (l : list A) :
  (forall a, f a = true -> g a = true) ->
  List.filter f (List.filter g l) = List.filter f l.
Proof.
  intros H. induction l as [|a l IH]; [reflexivity|]. cbn [List.filter].
  destruct (g a) eqn:Eg; cbn [List.filter].
  - now rewrite IH.
  - destruct (f a) eqn:Ef; [|exact IH]. apply H in Ef. congruence.
Qed.

Lemma filter_none {A} (f : A -> bool) (l : list A) :
  (forall a, f a = false) -> List.filter f l = [].
Proof.
  intros H. induction l as [|a l IH]; [reflexivity|].
  cbn [List.filter]. now rewrite H.
Qed.

Lemma filter_sublist {A} (f : A -> bool) (l : list A) :
  List.filter f l `sublist_of` l.
Proof.
  induction l as [|a l IH]; [constructor|]. cbn [List.filter].
  destruct (f a); now constructor.
Qed.

End Thresholds.

(** X16.  Raising the budget or the maximal distance never removes an
    activity: what the filter admits under one pair of thresholds it admits
    under any pair that is at least as large, so the smaller selection is
    the larger one filtered again. *)
Theorem filter_monotone
    (Math_sin Math_cos Math_sqrt : float -> float)
    (Math_atan2 : float -> float -> float)
    (hotel : Geo.Hotel) (tight loose : Geo.Preferences)
    (activities : list Geo.Activity) :
  (Geo.budget tight <=? Geo.budget loose)%float = true ->
  (Geo.maxDistance tight <=? Geo.maxDistance loose)%float = true ->
  (forall a,
      Geo.admits Math_sin Math_cos Math_sqrt Math_atan2 hotel tight a = true ->
      Geo.admits Math_sin Math_cos Math_sqrt Math_atan2 hotel loose a = true) /\
  Geo.filtered Math_sin Math_cos Math_sqrt Math_atan2 hotel tight activities =
  Geo.filtered Math_sin Math_cos Math_sqrt Math_atan2 hotel tight
    (Geo.filtered Math_sin Math_cos Math_sqrt Math_atan2 hotel loose
       activities).
Proof.
  intros Hb Hd.
  assert (forall a,
             Geo.admits Math_sin Math_cos Math_sqrt Math_atan2 hotel tight a
             = true ->
             Geo.admits Math_sin Math_cos Math_sqrt Math_atan2 hotel loose a
             = true) as Hmono.
  { intros a. unfold Geo.admits. rewrite !andb_true_iff. intros [H1 H2].
    split; eapply leb_trans; eauto. }
  split; [exact Hmono|].
  unfold Geo.filtered. symmetry. now apply filter_filter_weaker.
Qed.

Lemma filter_monotone_witness :
  Geo.admits Geo.near_sin Geo.near_cos PrimFloat.sqrt Geo.near_atan2
    Geo.example_hotel
    {| Geo.budget := 80; Geo.maxDistance := 12;
       Geo.duration := lit "Full Day" |}
    Geo.example_activity = true.
Proof.
  apply (proj1 (filter_monotone
                  Geo.near_sin Geo.near_cos PrimFloat.sqrt Geo.near_atan2
                  Geo.example_hotel Geo.example_preferences
                  {| Geo.budget := 80; Geo.maxDistance := 12;
                     Geo.duration := lit "Full Day" |}
                  [] eq_refl eq_refl)).
  reflexivity.
Defined.

(** X17.  A threshold that is NaN, which is what a missing or
    non-numeric [budget] or [maxDistance] compares as, admits nothing: the
    filtered list is empty whatever the activities.  An activity whose
    distance comes out as NaN is rejected whatever the thresholds. *)
Theorem filter_nan
    (Math_sin Math_cos Math_sqrt : float -> float)
    (Math_atan2 : float -> float -> float)
    (hotel : Geo.Hotel) (preferences : Geo.Preferences) :
  (is_nan (Geo.budget preferences) = true \/
   is_nan (Geo.maxDistance preferences) = true ->
   forall activities,
     Geo.filtered Math_sin Math_cos Math_sqrt Math_atan2
       hotel preferences activities = []) /\
  (forall a,
      is_nan (Geo.calculateDistance Math_sin Math_cos Math_sqrt Math_atan2
                (Geo.hotel_lat hotel) (Geo.hotel_lng hotel)
                (Geo.lat a) (Geo.lng a)) = true ->
      Geo.admits Math_sin Math_cos Math_sqrt Math_atan2
        hotel preferences a = false).
Proof.
  split.
  - intros H activities. unfold Geo.filtered. apply filter_none.
    intros a. unfold Geo.admits. apply andb_false_iff.
    destruct H as [H|H]; [right|left]; now apply leb_nan_r.
  - intros a H. unfold Geo.admits. apply andb_false_iff. left.
    now apply leb_nan_l.
Qed.

Lemma filter_nan_witness :
  Geo.filtered Geo.near_sin Geo.near_cos PrimFloat.sqrt Geo.near_atan2
    Geo.example_hotel
    {| Geo.budget := nan; Geo.maxDistance := 5;
       Geo.duration := lit "Half Day" |}
    [Geo.example_activity] = [].
Proof.
  exact (proj1 (filter_nan
                  Geo.near_sin Geo.near_cos PrimFloat.sqrt Geo.near_atan2
                  Geo.example_hotel
                  {| Geo.budget := nan; Geo.maxDistance := 5;
                     Geo.duration := lit "Half Day" |})
               (or_introl eq_refl) [Geo.example_activity]).
Defined.

(** X18.  The filter selects: the filtered list is a sublist of the
    request's activities (the same order, nothing added or duplicated), it
    holds exactly the admitted ones, and filtering it again changes
    nothing. *)
Theorem filter_selects
    (Math_sin Math_cos Math_sqrt : float -> float)
    (Math_atan2 : float -> float -> float)
    (hotel : Geo.Hotel) (preferences : Geo.Preferences)
    (activities : list Geo.Activity) :
  let selected :=
    Geo.filtered Math_sin Math_cos Math_sqrt Math_atan2
      hotel preferences activities in
  selected `sublist_of` activities /\
  (forall a,
      In a selected <->
      In a activities /\
      Geo.admits Math_sin Math_cos Math_sqrt Math_atan2
        hotel preferences a = true) /\
  Geo.filtered Math_sin Math_cos Math_sqrt Math_atan2
    hotel preferences selected = selected.
Proof.
  intros selected. unfold selected, Geo.filtered.
  split; [apply filter_sublist|]. split; [intros a; apply filter_In|].
  now apply filter_filter_weaker.
Qed.

(** * The prompt *)

Section Prompts.

Import Geo Prompt Handler.

Variable Number_toString : float -> jsstring.

Lemma includes_middle p u v : includes p (u ++ p ++ v) = true.
Proof. apply includes_app_r, includes_self. Qed.

Lemma join_In sep (x : jsstring) (l : list jsstring) :
  In x l -> exists u v, join sep l = u ++ x ++ v.
Proof.
  induction l as [|y l IH]; [intros []|]. intros [->|Hin].
  - destruct l as [|z l]; [exists [], []|exists [], (sep ++ join sep (z :: l))];
      cbn [join app]; now rewrite ?app_nil_r.
  - destruct (IH Hin) as (u & v & E). destruct l as [|z l]; [destruct Hin|].
    exists (y ++ sep ++ u), v. cbn [join] in *. rewrite E.
    now rewrite <- !app_assoc.
Qed.

Lemma activityList_name (a : Activity) (l : list Activity) :
  In a l -> includes (name a) (activityList Number_toString l) = true.
Proof.
  intros Hin. unfold activityList.
  destruct (join_In nl (activity_row Number_toString a)
                    (List.map (activity_row Number_toString) l))
    as (u & v & E); [now apply in_map|].
  rewrite E. unfold activity_row. rewrite <- !app_assoc.
  apply includes_middle.
Qed.

Lemma buildPrompt_name mode hotel (a : Activity) (l : list Activity)
    preferences :
  In a l ->
  includes (name a) (buildPrompt Number_toString mode hotel l preferences)
  = true.
Proof.
  intros Hin. unfold buildPrompt.
  destruct (bool_decide (mode = lit "quick")).
  - unfold quick_prompt. do 4 apply includes_app_r.
    apply includes_app_l. now apply activityList_name.
  - unfold full_prompt. do 7 apply includes_app_r.
    apply includes_app_l. now apply activityList_name.
Qed.

(** Walk down a concatenation to the literal that contains the pattern. *)
Ltac find_literal :=
  first [ apply includes_app_l; reflexivity
        | apply includes_app_r; find_literal
        | reflexivity ].

Lemma buildPrompt_markers mode hotel (l : list Activity) preferences :
  includes REASONING (buildPrompt Number_toString mode hotel l preferences)
  = true /\
  includes RESULT (buildPrompt Number_toString mode hotel l preferences)
  = true.
Proof.
  unfold buildPrompt.
  destruct (bool_decide (mode = lit "quick")).
  - unfold quick_prompt. split; find_literal.
  - unfold full_prompt. split; find_literal.
Qed.

End Prompts.

(** X19.  Whatever the mode, the hotel, the activities and the
    preferences, and however numbers are rendered, the prompt contains
    both markers, [REASONING:] and [RESULT:], on which the loop and the
    extraction rely; so does the system message. *)
Theorem prompt_carries_markers
    (Number_toString : float -> jsstring)
    (mode : jsstring) (hotel : Geo.Hotel)
    (activities : list Geo.Activity) (preferences : Geo.Preferences) :
  includes REASONING
    (Prompt.buildPrompt Number_toString mode hotel activities preferences)
  = true /\
  includes RESULT
    (Prompt.buildPrompt Number_toString mode hotel activities preferences)
  = true /\
  includes REASONING Handler.system_message = true /\
  includes RESULT Handler.system_message = true.
Proof.
  destruct (buildPrompt_markers Number_toString mode hotel activities
                                preferences) as [H1 H2].
  repeat split; trivial.
Qed.

(** X20.  The handler calls the generator with the system message and the
    prompt built from the filtered activities, and that prompt names every
    activity of the request that the filter admits. *)
Theorem handler_prompt
    (Math_sin Math_cos Math_sqrt : float -> float)
    (Math_atan2 : float -> float -> float)
    (Number_toString : float -> jsstring)
    (req : Handler.Request) (up : Handler.Upstream) (elapsed : jsstring) :
  let prompt :=
    Prompt.buildPrompt Number_toString (Handler.mode req) (Handler.hotel req)
      (Handler.filtered_of Math_sin Math_cos Math_sqrt Math_atan2 req)
      (Handler.preferences req) in
  In (Handler.CreateCompletion Handler.system_message prompt)
     (Handler.generate_itinerary Math_sin Math_cos Math_sqrt Math_atan2
        Number_toString req up elapsed) /\
  (forall a,
      In a (Handler.activities req) ->
      Geo.admits Math_sin Math_cos Math_sqrt Math_atan2
        (Handler.hotel req) (Handler.preferences req) a = true ->
      includes (Geo.name a) prompt = true).
Proof.
  intros prompt. split.
  - unfold Handler.generate_itinerary. apply in_or_app. left.
    unfold Handler.before_stream. do 8 right. now left.
  - intros a Hin Hadm. unfold prompt. apply buildPrompt_name.
    unfold Handler.filtered_of, Geo.filtered. apply filter_In. now split.
Qed.

Lemma handler_prompt_witness :
  includes (lit "X")
    (Prompt.buildPrompt (fun _ => lit "?") (lit "quick") Geo.example_hotel
       (Handler.filtered_of Geo.near_sin Geo.near_cos PrimFloat.sqrt
          Geo.near_atan2
          {| Handler.mode := lit "quick";
             Handler.hotel := Geo.example_hotel;
             Handler.activities := [Geo.example_activity];
             Handler.preferences := Geo.example_preferences |})
       Geo.example_preferences) = true.
Proof.
  refine (proj2 (handler_prompt
                   Geo.near_sin Geo.near_cos PrimFloat.sqrt Geo.near_atan2
                   (fun _ => lit "?")
                   {| Handler.mode := lit "quick";
                      Handler.hotel := Geo.example_hotel;
                      Handler.activities := [Geo.example_activity];
                      Handler.preferences := Geo.example_preferences |}
                   {| Handler.chunks := []; Handler.failure := None |}
                   (lit "0"))
                Geo.example_activity _ _).
  - now left.
  - reflexivity.
Defined.

(** * Errors *)

Section Errors.

Import Handler.

Lemma logged_app acts1 acts2 :
  logged (acts1 ++ acts2) = logged acts1 ++ logged acts2.
Proof. unfold logged. apply flat_map_app. Qed.

Lemma logged_effects es : logged (List.map Act es) = notifications es.
Proof.
  induction es as [|e es IH]; [reflexivity|].
  destruct e as [m l|ev|]; cbn [List.map]; unfold logged, notifications in *;
    cbn [flat_map app]; now rewrite IH.
Qed.

Lemma filter_absent {A} (f : A -> bool) (l : list A) :
  (forall a, In a l -> f a = false) -> List.filter f l = [].
Proof.
  induction l as [|a l IH]; intros H; [reflexivity|].
  cbn [List.filter]. rewrite (H a (or_introl eq_refl)).
  apply IH. intros b Hb. apply H. now right.
Qed.

Lemma finish_no_error elapsed st :
  List.filter Trace.is_error (notifications (finish elapsed st)) = [].
Proof. unfold finish. now destruct (truthy _). Qed.

Lemma run_stream_no_error chunks st :
  List.filter Trace.is_error (notifications (snd (run_stream chunks st))) = [].
Proof.
  apply filter_absent. intros n Hin.
  pose proof (run_stream_notices chunks st) as H.
  rewrite List.Forall_forall in H. apply H in Hin.
  now destruct Hin as [->|[->|(piece & -> & _)]].
Qed.

End Errors.

(** X21.  In a run that reaches the call of the generator: if the
    generator throws, with message [m], exactly one notification of
    severity error is logged, ["Error: "] followed by [m]; if the
    generator completes, none is. *)
Theorem error_notifications
    (Math_sin Math_cos Math_sqrt : float -> float)
    (Math_atan2 : float -> float -> float)
    (Number_toString : float -> jsstring)
    (req : Handler.Request) (up : Handler.Upstream) (elapsed : jsstring) :
  List.filter Trace.is_error
    (Handler.logged
       (Handler.generate_itinerary Math_sin Math_cos Math_sqrt Math_atan2
          Number_toString req up elapsed)) =
  match Handler.failure up with
  | Some message => [(lit "Error: " ++ message, error)]
  | None => []
  end.
Proof.
  unfold Handler.generate_itinerary.
  pose proof (run_stream_no_error (Handler.chunks up) initial) as HN.
  destruct (run_stream (Handler.chunks up) initial) as [st es].
  cbn [snd] in HN.
  rewrite !logged_app, !List.filter_app, logged_effects, HN.
  destruct (Handler.failure up) as [message|].
  - reflexivity.
  - rewrite logged_effects, finish_no_error. reflexivity.
Qed.

(** * The distance: symmetry and the distance of a point to itself *)

Section SpecFloats.
Variables prec emax : Z.

Lemma binary_round_aux_opp s m e l :
  binary_round_aux prec emax (negb s) m e l =
  SFopp (binary_round_aux prec emax s m e l).
Proof.
  unfold binary_round_aux.
  destruct (shr_fexp prec emax m e l) as [mrs e'].
  destruct (shr_fexp prec emax _ e' loc_Exact) as [mrs' e''].
  destruct (shr_m mrs'); try reflexivity.
  now destruct (Z.leb _ _).
Qed.

Lemma binary_round_opp s m e :
  binary_round prec emax (negb s) m e = SFopp (binary_round prec emax s m e).
Proof.
  unfold binary_round. destruct (shl_align _ _ _). apply binary_round_aux_opp.
Qed.

Lemma SFmul_opp_l x y : SFmul prec emax (SFopp x) y = SFopp (SFmul prec emax x y).
Proof.
  destruct x as [sx|sx| |sx mx ex], y as [sy|sy| |sy my ey]; cbn;
    try reflexivity; try (now destruct sx, sy).
  replace (xorb (negb sx) sy) with (negb (xorb sx sy)) by now destruct sx, sy.
  apply binary_round_aux_opp.
Qed.

Lemma SFmul_comm x y : SFmul prec emax x y = SFmul prec emax y x.
Proof.
  destruct x as [sx|sx| |sx mx ex], y as [sy|sy| |sy my ey]; cbn;
    try reflexivity; try (now destruct sx, sy).
  now rewrite xorb_comm, Pos.mul_comm, Z.add_comm.
Qed.

Lemma SFdiv_opp_l x y : SFdiv prec emax (SFopp x) y = SFopp (SFdiv prec emax x y).
Proof.
  destruct x as [sx|sx| |sx mx ex], y as [sy|sy| |sy my ey]; cbn;
    try reflexivity; try (now destruct sx, sy).
  destruct (SFdiv_core_binary _ _ _ _ _ _) as [[mz ez] lz].
  replace (xorb (negb sx) sy) with (negb (xorb sx sy)) by now destruct sx, sy.
  apply binary_round_aux_opp.
Qed.

Lemma SFsub_swap x y :
  SFsub prec emax y x = SFsub prec emax x y \/
  SFsub prec emax y x = SFopp (SFsub prec emax x y).
Proof.
  destruct x as [sx|sx| |sx mx ex], y as [sy|sy| |sy my ey]; cbn;
    try (now left); try (destruct sx, sy; cbn; auto; fail);
    try (right; cbn; now rewrite ?negb_involutive).
  rewrite (Z.min_comm ey ex).
  set (ez := Z.min ex ey).
  set (A := cond_Zopp sx (Zpos (fst (shl_align mx ex ez)))).
  set (B := cond_Zopp sy (Zpos (fst (shl_align my ey ez)))).
  replace (B - A)%Z with (- (A - B))%Z by lia.
  destruct (A - B)%Z as [|p|p]; cbn; [now left|right|right].
  - apply (binary_round_opp false).
  - apply (binary_round_opp true).
Qed.

Lemma SFsub_diag x :
  (exists s, x = S754_zero s) \/ (exists s m e, x = S754_finite s m e) ->
  SFsub prec emax x x = S754_zero false.
Proof.
  intros [[s ->]|(s & m & e & ->)]; cbn.
  - now destruct s.
  - now rewrite Z.sub_diag.
Qed.
End SpecFloats.

Section PrimFloats.
Local Open Scope float_scope.

Lemma Prim2SF_nan : Prim2SF nan = S754_nan. Proof. reflexivity. Qed.

Lemma float_mul_opp_l (x y : float) : (- x) * y = - (x * y).
Proof.
  apply Prim2SF_inj.
  rewrite FloatAxioms.mul_spec, !FloatAxioms.opp_spec, FloatAxioms.mul_spec.
  apply SFmul_opp_l.
Qed.

Lemma float_mul_comm (x y : float) : x * y = y * x.
Proof.
  apply Prim2SF_inj. rewrite !FloatAxioms.mul_spec. apply SFmul_comm.
Qed.

Lemma float_mul_opp_r (x y : float) : x * (- y) = - (x * y).
Proof. now rewrite (float_mul_comm x (- y)), float_mul_opp_l, (float_mul_comm y x). Qed.

Lemma float_opp_involutive (x : float) : - - x = x.
Proof.
  apply Prim2SF_inj. rewrite !FloatAxioms.opp_spec.
  destruct (Prim2SF x); cbn; now rewrite ?negb_involutive.
Qed.

Lemma float_div_opp_l (x y : float) : (- x) / y = - (x / y).
Proof.
  apply Prim2SF_inj.
  rewrite FloatAxioms.div_spec, !FloatAxioms.opp_spec, FloatAxioms.div_spec.
  apply SFdiv_opp_l.
Qed.

Lemma float_sub_swap (x y : float) : y - x = x - y \/ y - x = - (x - y).
Proof.
  destruct (SFsub_swap prec emax (Prim2SF x) (Prim2SF y)) as [H|H].
  - left. apply Prim2SF_inj. now rewrite !FloatAxioms.sub_spec.
  - right. apply Prim2SF_inj.
    now rewrite FloatAxioms.opp_spec, !FloatAxioms.sub_spec.
Qed.

Lemma is_finite_spec (x : float) :
  is_finite x = true ->
  (exists s, Prim2SF x = S754_zero s) \/
  (exists s m e, Prim2SF x = S754_finite s m e).
Proof.
  unfold is_finite, is_nan, is_infinity.
  rewrite !FloatAxioms.eqb_spec, FloatAxioms.abs_spec.
  change (Prim2SF infinity) with (S754_infinity false).
  destruct (Prim2SF x) as [s|s| |s m e]; intros H.
  - left. now exists s.
  - destruct s; discriminate H.
  - discriminate H.
  - right. now exists s, m, e.
Qed.

Lemma float_sub_diag (x : float) : is_finite x = true -> x - x = 0.
Proof.
  intros H. apply Prim2SF_inj. rewrite FloatAxioms.sub_spec.
  change (Prim2SF 0) with (S754_zero false).
  apply SFsub_diag. now apply is_finite_spec.
Qed.

Lemma float_mul_zero_r (x : float) : is_finite x = true -> x * 0 = 0 \/ x * 0 = -0.
Proof.
  intros H. apply is_finite_spec in H.
  assert (Prim2SF (x * 0) = S754_zero false \/ Prim2SF (x * 0) = S754_zero true) as E.
  { rewrite FloatAxioms.mul_spec. change (Prim2SF 0) with (S754_zero false).
    destruct H as [[s ->]|(s & m & e & ->)]; cbn; destruct s; auto. }
  destruct E as [E|E]; [left|right]; apply Prim2SF_inj; rewrite E; reflexivity.
Qed.

Lemma float_add_nan_l (y : float) : nan + y = nan.
Proof.
  apply Prim2SF_inj. rewrite FloatAxioms.add_spec.
  change (Prim2SF nan) with S754_nan. reflexivity.
Qed.

Lemma float_eqb_refl (x : float) : is_nan x = false -> (x =? x) = true.
Proof. unfold is_nan. now rewrite negb_false_iff. Qed.
End PrimFloats.

Section Distance.

Import Geo.
Local Open Scope float_scope.

Variables Math_sin Math_cos Math_sqrt : float -> float.
Variable Math_atan2 : float -> float -> float.

(** An odd sine: what [sin] does to the half angle of an opposite
    difference. *)
Hypothesis sin_odd : forall x, Math_sin (- x) = - Math_sin x.

Lemma half_angle_opp (d : float) :
  Math_sin (toRad (- d) / 2) = - Math_sin (toRad d / 2).
Proof. unfold toRad. now rewrite float_mul_opp_l, float_div_opp_l, sin_odd. Qed.

Lemma square_opp (s : float) : (- s) * (- s) = s * s.
Proof. now rewrite float_mul_opp_l, float_mul_opp_r, float_opp_involutive. Qed.

Lemma scaled_square_opp (c s : float) : c * (- s) * (- s) = c * s * s.
Proof.
  now rewrite !float_mul_opp_r, float_mul_opp_l, float_opp_involutive.
Qed.

(** The half-angle terms of the formula do not change when the two
    points are exchanged. *)
Lemma half_angle_square_swap (x y : float) :
  Math_sin (toRad (y - x) / 2) * Math_sin (toRad (y - x) / 2) =
  Math_sin (toRad (x - y) / 2) * Math_sin (toRad (x - y) / 2).
Proof.
  destruct (float_sub_swap x y) as [->| ->]; [reflexivity|].
  now rewrite half_angle_opp, square_opp.
Qed.

Lemma half_angle_scaled_swap (c x y : float) :
  c * Math_sin (toRad (y - x) / 2) * Math_sin (toRad (y - x) / 2) =
  c * Math_sin (toRad (x - y) / 2) * Math_sin (toRad (x - y) / 2).
Proof.
  destruct (float_sub_swap x y) as [->| ->]; [reflexivity|].
  now rewrite half_angle_opp, scaled_square_opp.
Qed.

Lemma calculateDistance_swap (lat1 lon1 lat2 lon2 : float) :
  calculateDistance Math_sin Math_cos Math_sqrt Math_atan2 lat1 lon1 lat2 lon2
  = calculateDistance Math_sin Math_cos Math_sqrt Math_atan2
      lat2 lon2 lat1 lon1.
Proof.
  unfold calculateDistance. cbv zeta.
  rewrite (half_angle_square_swap lat2 lat1).
  rewrite (half_angle_scaled_swap _ lon2 lon1).
  now rewrite (float_mul_comm (Math_cos (toRad lat1))).
Qed.

End Distance.

Section SelfDistance.

Import Geo.
Local Open Scope float_scope.

Variables Math_sin Math_cos Math_sqrt : float -> float.
Variable Math_atan2 : float -> float -> float.

Lemma calculateDistance_self (lat lon : float) :
  Math_sin 0 = 0 -> Math_sqrt 0 = 0 -> Math_sqrt 1 = 1 ->
  Math_atan2 0 1 = 0 ->
  is_finite lat = true -> is_finite lon = true ->
  is_finite (Math_cos (toRad lat) * Math_cos (toRad lat)) = true ->
  calculateDistance Math_sin Math_cos Math_sqrt Math_atan2 lat lon lat lon = 0.
Proof.
  intros Hsin Hsqrt0 Hsqrt1 Hatan Hlat Hlon Hcos.
  unfold calculateDistance. cbv zeta.
  rewrite (float_sub_diag lat Hlat), (float_sub_diag lon Hlon).
  change (toRad 0 / 2) with 0. rewrite Hsin.
  destruct (float_mul_zero_r _ Hcos) as [-> | ->].
  - change (0 * 0 + 0 * 0) with 0. rewrite Hsqrt0.
    change (1 - 0) with 1. rewrite Hsqrt1, Hatan. reflexivity.
  - change (0 * 0 + -0 * 0) with 0. rewrite Hsqrt0.
    change (1 - 0) with 1. rewrite Hsqrt1, Hatan. reflexivity.
Qed.

(** A coordinate that is NaN or infinite makes the distance NaN, whatever
    the other values, with the NaN cases that ECMAScript fixes for
    [Math.sin], [Math.sqrt] and [Math.atan2]. *)
Lemma calculateDistance_nan (lat lon1 lon2 : float) :
  Math_sin nan = nan -> Math_sqrt nan = nan -> Math_atan2 nan nan = nan ->
  lat = nan \/ lat = infinity \/ lat = neg_infinity ->
  calculateDistance Math_sin Math_cos Math_sqrt Math_atan2 lat lon1 lat lon2
  = nan.
Proof.
  intros Hsin Hsqrt Hatan Hlat.
  unfold calculateDistance. cbv zeta.
  assert (lat - lat = nan) as -> by (destruct Hlat as [->|[->| ->]]; reflexivity).
  change (toRad nan / 2) with nan. rewrite Hsin.
  change (nan * nan) with nan. rewrite float_add_nan_l, Hsqrt.
  change (1 - nan) with nan. rewrite Hsqrt, Hatan. reflexivity.
Qed.

End SelfDistance.

(** C8 (as amended).  With a sine that is odd, [distance(a,b)] and
    [distance(b,a)] are the same double for all coordinate pairs, so that
    [distance(a,b) == distance(b,a)] holds whenever the distance is not
    NaN.  For every coordinate whose latitude and longitude are finite,
    [distance(a,a) == 0], given the exact values [sin 0 = 0], [sqrt 0 = 0],
    [sqrt 1 = 1] and [atan2 0 1 = 0] and a finite square of the cosine of
    the latitude. *)
Theorem distance_symmetric_and_zero
    (Math_sin Math_cos Math_sqrt : float -> float)
    (Math_atan2 : float -> float -> float) :
  ((forall x, Math_sin (- x) = - Math_sin x)%float ->
   forall lat1 lon1 lat2 lon2 : float,
     Geo.calculateDistance Math_sin Math_cos Math_sqrt Math_atan2
       lat1 lon1 lat2 lon2 =
     Geo.calculateDistance Math_sin Math_cos Math_sqrt Math_atan2
       lat2 lon2 lat1 lon1 /\
     (is_nan (Geo.calculateDistance Math_sin Math_cos Math_sqrt Math_atan2
                lat1 lon1 lat2 lon2) = false ->
      (Geo.calculateDistance Math_sin Math_cos Math_sqrt Math_atan2
         lat1 lon1 lat2 lon2 =?
       Geo.calculateDistance Math_sin Math_cos Math_sqrt Math_atan2
         lat2 lon2 lat1 lon1)%float = true)) /\
  (Math_sin 0%float = 0%float -> Math_sqrt 0%float = 0%float ->
   Math_sqrt 1%float = 1%float -> Math_atan2 0%float 1%float = 0%float ->
   forall lat lon : float,
     is_finite lat = true -> is_finite lon = true ->
     is_finite (Math_cos (Geo.toRad lat) * Math_cos (Geo.toRad lat))%float
     = true ->
     (Geo.calculateDistance Math_sin Math_cos Math_sqrt Math_atan2
        lat lon lat lon =? 0)%float = true).
Proof.
  split.
  - intros Hodd lat1 lon1 lat2 lon2.
    pose proof (calculateDistance_swap Math_sin Math_cos Math_sqrt Math_atan2
                  Hodd lat1 lon1 lat2 lon2) as E.
    split; [exact E|]. intros Hnan. rewrite <- E.
    now apply float_eqb_refl.
  - intros Hsin Hsqrt0 Hsqrt1 Hatan lat lon Hlat Hlon Hcos.
    now rewrite (calculateDistance_self Math_sin Math_cos Math_sqrt Math_atan2
                   lat lon Hsin Hsqrt0 Hsqrt1 Hatan Hlat Hlon Hcos).
Qed.

Lemma distance_symmetric_and_zero_witness :
  (Geo.calculateDistance Geo.linear_sin Geo.near_cos PrimFloat.sqrt
     Geo.near_atan2 40 (-74) 0x1.40020c49ba5e3p+5 (-0x1.28010624dd2f2p+6) =?
   Geo.calculateDistance Geo.linear_sin Geo.near_cos PrimFloat.sqrt
     Geo.near_atan2 0x1.40020c49ba5e3p+5 (-0x1.28010624dd2f2p+6) 40 (-74))%float
  = true /\
  (Geo.calculateDistance Geo.linear_sin Geo.near_cos PrimFloat.sqrt
     Geo.near_atan2 40 (-74) 40 (-74) =? 0)%float = true.
Proof.
  destruct (distance_symmetric_and_zero
              Geo.linear_sin Geo.near_cos PrimFloat.sqrt Geo.near_atan2)
    as [Hsym Hzero].
  split.
  - exact (proj2 (Hsym (fun x => eq_refl) 40%float (-74)%float
                       0x1.40020c49ba5e3p+5%float
                       (-0x1.28010624dd2f2p+6)%float)
                 eq_refl).
  - exact (Hzero eq_refl eq_refl eq_refl eq_refl 40%float (-74)%float
                 eq_refl eq_refl eq_refl).
Defined.

(** C8, as stated, fails on the code: nothing keeps a coordinate finite,
    and with a latitude that is infinite (what JSON's [1e999] parses to) or
    NaN the distance is NaN, which equals neither [0] nor itself.  This
    holds for every engine with the NaN cases of ECMAScript, and is
    evaluated here with the stand-ins. *)
Lemma distance_nan_counterexample :
  (forall (Math_sin Math_cos Math_sqrt : float -> float)
          (Math_atan2 : float -> float -> float),
      Math_sin nan = nan -> Math_sqrt nan = nan ->
      Math_atan2 nan nan = nan ->
      forall lon : float,
        (Geo.calculateDistance Math_sin Math_cos Math_sqrt Math_atan2
           infinity lon infinity lon =? 0)%float = false /\
        (Geo.calculateDistance Math_sin Math_cos Math_sqrt Math_atan2
           infinity lon infinity lon =?
         Geo.calculateDistance Math_sin Math_cos Math_sqrt Math_atan2
           infinity lon infinity lon)%float = false) /\
  Geo.near_sin nan = nan /\ PrimFloat.sqrt nan = nan /\
  Geo.near_atan2 nan nan = nan /\
  (Geo.calculateDistance Geo.near_sin Geo.near_cos PrimFloat.sqrt
     Geo.near_atan2 infinity (-74) infinity (-74) =? 0)%float = false /\
  (Geo.calculateDistance Geo.near_sin Geo.near_cos PrimFloat.sqrt
     Geo.near_atan2 nan (-74) nan (-74) =? 0)%float = false.
Proof.
  split; [|repeat split; reflexivity].
  intros Math_sin Math_cos Math_sqrt Math_atan2 Hsin Hsqrt Hatan lon.
  rewrite (calculateDistance_nan Math_sin Math_cos Math_sqrt Math_atan2
             infinity lon lon Hsin Hsqrt Hatan (or_intror (or_introl eq_refl))).
  split; reflexivity.
Qed.
